(** * rdscli_exporter: the RDS metrics cache and its refresh cycle

    A shallow embedding of [main.go]: the label tuple and the gauge samples
    built for one database instance, the paginated collection of one region,
    the fan-out/fan-in refresh cycle [updateCache] with the exporter state it
    reads and writes, the scrape path [Collect], and the goroutines that
    contend for [updateMu]. *)

From Stdlib Require Import ZArith Ascii.
From stdpp Require Import base option list strings gmap.

Local Open Scope string_scope.
Local Open Scope list_scope.
Local Open Scope Z_scope.

(** ** Provider data, as the code reads it

    The SDK hands every attribute out behind a pointer; a nil pointer is
    [None].  The numeric attributes are [*int32]; [float64] holds every
    [int32] exactly, so a sample's value is kept as the integer itself. *)

Record Tag := mkTag {
  Key : option string;
  Value : option string
}.

Record DBInstance := mkDBInstance {
  DBInstanceIdentifier : option string;
  AvailabilityZone : option string;
  SecondaryAvailabilityZone : option string;
  StorageType : option string;
  DBInstanceClass : option string;
  Engine : option string;
  DBInstanceArn : option string;
  AllocatedStorage : option Z;
  MaxAllocatedStorage : option Z;
  Iops : option Z;
  StorageThroughput : option Z
}.

Record DescribeDBInstancesOutput := mkOutput {
  DBInstances : list DBInstance;
  Marker : option string
}.

Record Region := mkRegion { RegionName : option string }.

(** A provider call returns its output or an error, kept as the text that
    [%v] prints. *)
Inductive result (A : Type) : Type :=
| Ok (a : A)
| Err (err : string).
Arguments Ok {A} a.
Arguments Err {A} err.

(** The three provider calls of a refresh cycle.  The RDS client is bound to
    a region (main.go:131), hence the first argument of the last two. *)
Record Provider := mkProvider {
  ListRegions : result (list Region);
  DescribeDBInstances : string → option string → result DescribeDBInstancesOutput;
  ListTagsForResource : string → option string → result (list Tag)
}.

(** ** Metric descriptors and samples (client_golang) *)

Inductive ValueType := CounterValue | GaugeValue | UntypedValue.

Record Desc := NewDesc {
  fqName : string;
  help : string;
  variableLabels : list string
}.

Record Metric := mkMetric {
  desc : Desc;
  valueType : ValueType;
  value : Z;
  labelValues : list string
}.

(** [MustNewConstMetric] panics when the number of label values differs from
    the number of variable labels of the descriptor. *)
Definition MustNewConstMetric (d : Desc) (vt : ValueType) (v : Z)
    (labels : list string) : option Metric :=
  if bool_decide (length labels = length (variableLabels d))
  then Some (mkMetric d vt v labels)
  else None.

(** ** What a goroutine does: a trace of effects and how it ended *)

Inductive event :=
| EvLog (msg : string)     (* log.Printf *)
| EvEmit (m : Metric)      (* e.cache = append(e.cache, m); ch <- m *)
| EvPanic.                 (* the goroutine panics: the process dies *)

Inductive status (A : Type) : Type :=
| Done (a : A)             (* ran to its end *)
| Panicked                 (* nil dereference or a Must... panic *)
| Running.                 (* still looping when the fuel ran out *)
Arguments Done {A} a.
Arguments Panicked {A}.
Arguments Running {A}.

Definition Go (A : Type) : Type := (list event * status A)%type.

Definition ret {A} (a : A) : Go A := ([], Done a).

Definition bind {A B} (m : Go A) (k : A → Go B) : Go B :=
  match m with
  | (t, Done a) => let '(t', r) := k a in (t ++ t', r)
  | (t, Panicked) => (t, Panicked)
  | (t, Running) => (t, Running)
  end.

Notation "x <- m ;; k" := (bind m (λ x, k))
  (at level 100, m at next level, right associativity).

Definition panic {A} : Go A := ([EvPanic], Panicked).

(** [*p] for a pointer [p]. *)
Definition deref {A} (p : option A) : Go A :=
  match p with
  | Some a => ret a
  | None => panic
  end.

Definition logPrintf (msg : string) : Go unit := ([EvLog msg], Done tt).

Definition emit (m : Metric) : Go unit := ([EvEmit m], Done tt).

(** [for _, x := range xs { body }] *)
Fixpoint forRange {A} (xs : list A) (body : A → Go unit) : Go unit :=
  match xs with
  | [] => ret tt
  | x :: xs' => _ <- body x ;; forRange xs' body
  end.

Definition trace {A} (m : Go A) : list event := fst m.

Definition emitted (t : list event) : list Metric :=
  omap (λ ev, match ev with EvEmit m => Some m | _ => None end) t.

Definition logged (t : list event) : list string :=
  omap (λ ev, match ev with EvLog msg => Some msg | _ => None end) t.

(** ** The steps of a collector with its listing calls made visible *)

Inductive listingStep :=
| Called (marker : option string)  (* rdsClient.DescribeDBInstances, Marker: marker *)
| Did (ev : event).

Definition Traced (A : Type) : Type := (list listingStep * status A)%type.

Definition bindT {A B} (m : Traced A) (k : A → Traced B) : Traced B :=
  match m with
  | (t, Done a) => let '(t', r) := k a in (t ++ t', r)
  | (t, Panicked) => (t, Panicked)
  | (t, Running) => (t, Running)
  end.

Definition called (marker : option string) : Traced unit :=
  ([Called marker], Done tt).

Definition lift {A} (m : Go A) : Traced A := (Did <$> m.1, m.2).

(** What the steps do to the process: the calls left out. *)
Definition forget {A} (m : Traced A) : Go A :=
  (omap (λ s, match s with Did ev => Some ev | Called _ => None end) m.1, m.2).


(** ** Labels (main.go:22-63) *)

Definition baseLabels : list string :=
  ["dimension_DBInstanceIdentifier"; "az"; "secondary_az"; "storage_type";
   "region"; "db_instance_class"; "engine"].

Definition createDynLabels (baseLabels tags : list string) : list string :=
  foldl (λ baseLabels tag, baseLabels ++ ["tag_" +:+ tag]) baseLabels tags.

(** ** The region collector (main.go:130-205)

    The package variable [tags] is read by every function below; it is a
    parameter here, and [tags] further down is the value main.go declares. *)

Section Collector.
Variable tags : list string.

Definition dynLabels : list string := createDynLabels baseLabels tags.

Definition allocatedStorageDesc : Desc :=
  NewDesc "aws_rds_allocated_storage"
          "Allocated storage for RDS instance in GB" dynLabels.
Definition maxAllocatedStorageDesc : Desc :=
  NewDesc "aws_rds_max_allocated_storage"
          "Max allocated storage for RDS instance in GB" dynLabels.
Definition iopsDesc : Desc :=
  NewDesc "aws_rds_iops" "IOPS for RDS instance" dynLabels.
Definition storageThroughputDesc : Desc :=
  NewDesc "aws_rds_storage_throughput"
          "Storage throughput for RDS instance" dynLabels.

(** main.go:141-152 *)
Definition baseValues (regionName : string) (instance : DBInstance)
    : Go (list string) :=
  identifier <- deref (DBInstanceIdentifier instance) ;;
  az <- deref (AvailabilityZone instance) ;;
  let secondary :=
    match SecondaryAvailabilityZone instance with
    | Some z => z
    | None => ""
    end in
  storage <- deref (StorageType instance) ;;
  class <- deref (DBInstanceClass instance) ;;
  engine <- deref (Engine instance) ;;
  ret [identifier; az; secondary; storage; regionName; class; engine].

(** main.go:155-158 *)
Definition emptyTagMap : gmap string string :=
  foldl (λ tagMap tag, <[tag := ""]> tagMap) ∅ tags.

(** main.go:166-170 *)
Definition fillTagMap (tagList : list Tag) (tagMap : gmap string string)
    : gmap string string :=
  foldl (λ tagMap tag,
           match Key tag, Value tag with
           | Some k, Some v =>
               if bool_decide (k ∈ tags) then <[k := v]> tagMap else tagMap
           | _, _ => tagMap
           end) tagMap tagList.

(** main.go:174-176; a Go map answers [""] for a key it does not hold. *)
Definition tagValues (tagMap : gmap string string) : list string :=
  (λ tag, default "" (tagMap !! tag)) <$> tags.

(** One of the four blocks of main.go:178-197. *)
Definition gauge (d : Desc) (field : option Z) (labels : list string)
    : Go unit :=
  match field with
  | Some v =>
      metric <- deref (MustNewConstMetric d GaugeValue v labels) ;;
      emit metric
  | None => ret tt
  end.

(** main.go:155-171: the tag map of one instance. *)
Definition fetchTags (aws : Provider) (regionName : string)
    (instance : DBInstance) : Go (gmap string string) :=
  let tagMap := emptyTagMap in
  match ListTagsForResource aws regionName (DBInstanceArn instance) with
  | Err err =>
      arn <- deref (DBInstanceArn instance) ;;
      _ <- logPrintf ("Error listing tags for RDS instance " +:+ arn
                      +:+ " : " +:+ err) ;;
      ret tagMap
  | Ok tagList => ret (fillTagMap tagList tagMap)
  end.

(** The body of the loop over one page's instances, main.go:141-197. *)
Definition collectInstance (aws : Provider) (regionName : string)
    (instance : DBInstance) : Go unit :=
  labels <- baseValues regionName instance ;;
  tagMap <- fetchTags aws regionName instance ;;
  let labels := labels ++ tagValues tagMap in
  _ <- gauge allocatedStorageDesc (AllocatedStorage instance) labels ;;
  _ <- gauge maxAllocatedStorageDesc (MaxAllocatedStorage instance) labels ;;
  _ <- gauge iopsDesc (Iops instance) labels ;;
  gauge storageThroughputDesc (StorageThroughput instance) labels.

(** The pagination loop, main.go:133-204, entered with [marker]; every
    turn starts with one call of DescribeDBInstances. *)
Fixpoint collectPagesCalls (fuel : nat) (aws : Provider) (regionName : string)
    (marker : option string) : Traced unit :=
  match fuel with
  | O => ([], Running)
  | S fuel' =>
      bindT (called marker) (λ _,
        match DescribeDBInstances aws regionName marker with
        | Err err =>
            lift (logPrintf ("Couldn't list RDS instances in region "
                             +:+ regionName +:+ " : " +:+ err))
        | Ok output =>
            bindT (lift (forRange (DBInstances output)
                                  (collectInstance aws regionName)))
              (λ _, match Marker output with
                    | None => lift (ret tt)
                    | Some next =>
                        collectPagesCalls fuel' aws regionName (Some next)
                    end)
        end)
  end.

(** The loop as the cycle sees it: its logging and its samples. *)
Definition collectPages (fuel : nat) (aws : Provider) (regionName : string)
    (marker : option string) : Go unit :=
  forget (collectPagesCalls fuel aws regionName marker).

Definition collectRegionMetrics (fuel : nat) (aws : Provider)
    (regionName : string) : Go unit :=
  collectPages fuel aws regionName None.

End Collector.

(** main.go:24 *)
Definition tags : list string := ["purpose"; "team"; "region"; "environment"].

(** ** The exporter and the refresh cycle (main.go:49-128) *)

(** [sdkConfig] is the [Provider] handed to the calls; the two locks are
    modelled by where a reader may look ([observable]) and by the
    goroutines of [Module Refresh]. *)
Record RDSExporter := mkExporter {
  cache : list Metric;
  cacheTTL : Z;        (* time.Duration: nanoseconds, an int64 *)
  lastUpdate : Z       (* time.Time: nanoseconds since the zero Time *)
}.

(** The process: the exporter and the lines logged so far. *)
Record Process := mkProcess {
  exporter : RDSExporter;
  logs : list string
}.

Definition NewRDSExporter (ttl : Z) : RDSExporter :=
  mkExporter [] ttl 0.

Definition maxDuration : Z := 2 ^ 63 - 1.
Definition minDuration : Z := - 2 ^ 63.

(** [time.Since(t)] at the instant [now]; [Time.Sub] saturates. *)
Definition Since (now t : Z) : Z :=
  Z.max minDuration (Z.min maxDuration (now - t)).

(** The effect of one event of a collector goroutine on the process.  The
    append of main.go:180, 185, 190 and 195 writes [e.cache] with no lock
    held. *)
Definition perform (p : Process) (ev : event) : Process :=
  match ev with
  | EvLog msg => mkProcess (exporter p) (logs p ++ [msg])
  | EvEmit m =>
      let e := exporter p in
      mkProcess (mkExporter (cache e ++ [m]) (cacheTTL e) (lastUpdate e))
                (logs p)
  | EvPanic => p
  end.

(** The collectors run concurrently: [sched] names, step by step, the
    goroutine that moves next (a name of a finished or missing goroutine
    is skipped); when [sched] ends, the rest run in the order they were
    started. *)
Fixpoint interleave (sched : list nat) (workers : list (list event))
    : list event :=
  match sched with
  | [] => concat workers
  | i :: sched' =>
      match workers !! i with
      | Some (ev :: rest) => ev :: interleave sched' (<[i := rest]> workers)
      | _ => interleave sched' workers
      end
  end.

Definition isPanic (ev : event) : bool :=
  match ev with EvPanic => true | _ => false end.

Definition isRunning {A} (m : Go A) : bool :=
  match snd m with Running => true | _ => false end.

Inductive outcome :=
| Returned (p : Process)   (* updateCache returned *)
| Crashed                  (* a goroutine panicked *)
| OutOfFuel.               (* a collector was still paginating *)

(** main.go:124-127 *)
Definition swap (now : Z) (newCache : list Metric) (p : Process) : Process :=
  let e := exporter p in
  mkProcess (mkExporter newCache (cacheTTL e) now) (logs p).

(** The states of the process a scrape can find while the collectors of one
    cycle run, that is before [updateCache] takes [mu] for the swap: the
    state the cycle started from, then the state after each event. *)
Fixpoint states (p : Process) (evs : list event) : list Process :=
  match evs with
  | [] => [p]
  | EvPanic :: _ => [p]
  | ev :: evs' => p :: states (perform p ev) evs'
  end.

(** main.go:81-92: what the scrape sends on its channel, and whether it
    starts [go e.updateCache()]. *)
Definition Collect (now : Z) (e : RDSExporter) : list Metric * bool :=
  (cache e, bool_decide (cacheTTL e ≤ Since now (lastUpdate e))).

Section Refresher.
Variable tags : list string.

(** main.go:106-115: one collector per region, each given
    [*region.RegionName]. *)
Definition spawn (fuel : nat) (aws : Provider) (regions : list Region)
    : option (list (Go unit)) :=
  names ← mapM RegionName regions;
  Some (collectRegionMetrics tags fuel aws <$> names).

(** main.go:94-128, run while holding [updateMu].  [newCache] receives the
    samples in the order they were sent on the channel. *)
Definition updateCache (sched : list nat) (fuel : nat) (now : Z)
    (aws : Provider) (p : Process) : outcome :=
  match ListRegions aws with
  | Err err => Returned (perform p (EvLog ("Error listing regions: " +:+ err)))
  | Ok regions =>
      match spawn fuel aws regions with
      | None => Crashed
      | Some workers =>
          if existsb isRunning workers then OutOfFuel
          else
            let evs := interleave sched (trace <$> workers) in
            if existsb isPanic evs then Crashed
            else Returned (swap now (emitted evs) (foldl perform p evs))
      end
  end.

(** What a scrape can find during one cycle. *)
Definition observable (sched : list nat) (fuel : nat) (aws : Provider)
    (p : Process) : list Process :=
  match ListRegions aws with
  | Err _ => [p]
  | Ok regions =>
      match spawn fuel aws regions with
      | None => [p]
      | Some workers => states p (interleave sched (trace <$> workers))
      end
  end.

End Refresher.

(** main.go:74-79: the descriptors [Describe] sends, in order. *)
Definition Describe (tags : list string) : list Desc :=
  [allocatedStorageDesc tags; maxAllocatedStorageDesc tags; iopsDesc tags;
   storageThroughputDesc tags].

(** ** The goroutines that contend for [updateMu] (main.go:89-96)

    Every scrape that finds the cache expired starts a goroutine running
    [updateCache]; its first statement is the blocking [updateMu.Lock()]. *)

Module Refresh.

Inductive pc :=
| AtLock      (* main.go:95: inside updateMu.Lock(), not yet granted *)
| InCycle     (* main.go:98-127: holds updateMu *)
| Exited.     (* returned; the deferred Unlock has run *)

#[global] Instance pc_eq_dec : EqDecision pc.
Proof. solve_decision. Defined.

Record System := mkSystem {
  exp : RDSExporter;
  updaters : list pc
}.

Inductive action :=
| Scrape (now : Z)
    (* a scrape runs Collect at [now] *)
| Acquire (i : nat)
    (* updateMu is granted to updater [i] *)
| Finish (i : nat) (installed : option (list Metric)) (now : Z).
    (* updater [i] returns: after the swap of [installed] at [now], or
       without a swap when it is [None] *)

Definition held (us : list pc) : bool := bool_decide (InCycle ∈ us).

Definition step (a : action) (s : System) : option System :=
  match a with
  | Scrape now =>
      if (Collect now (exp s)).2
      then Some (mkSystem (exp s) (updaters s ++ [AtLock]))
      else Some s
  | Acquire i =>
      match updaters s !! i with
      | Some AtLock =>
          if held (updaters s) then None
          else Some (mkSystem (exp s) (<[i := InCycle]> (updaters s)))
      | _ => None
      end
  | Finish i installed now =>
      match updaters s !! i with
      | Some InCycle =>
          let e := exp s in
          Some (mkSystem
                  match installed with
                  | Some newCache => mkExporter newCache (cacheTTL e) now
                  | None => e
                  end
                  (<[i := Exited]> (updaters s)))
      | _ => None
      end
  end.

Fixpoint run (acts : list action) (s : System) : option System :=
  match acts with
  | [] => Some s
  | a :: acts' =>
      match step a s with
      | Some s' => run acts' s'
      | None => None
      end
  end.

(** The process after [main] registered the exporter. *)
Definition init (ttl : Z) : System := mkSystem (NewRDSExporter ttl) [].

End Refresh.

(** ** The helpers of package utils

    Go strings are byte sequences, and so are the strings here. *)

Module Utils.

(** *** The library calls the helpers make (package strings, regexp) *)

(** [s[lo:]] *)
Definition sliceFrom (s : string) (lo : nat) : string :=
  String.substring lo (String.length s - lo) s.

(** [s[:hi]] *)
Definition sliceTo (s : string) (hi : nat) : string :=
  String.substring 0 hi s.

(** strings.HasPrefix: [len(s) >= len(prefix) && s[:len(prefix)] == prefix] *)
Definition HasPrefix (s prefix : string) : bool :=
  bool_decide (String.length prefix ≤ String.length s)%nat
  && bool_decide (sliceTo s (String.length prefix) = prefix).

(** strings.TrimPrefix *)
Definition TrimPrefix (s prefix : string) : string :=
  if HasPrefix s prefix then sliceFrom s (String.length prefix) else s.

(** strings.Index: the position of the first occurrence, [None] for -1. *)
Fixpoint Index (s sep : string) : option nat :=
  if HasPrefix s sep then Some 0%nat
  else match s with
       | EmptyString => None
       | String _ s' => S <$> Index s' sep
       end.

(** strings.Cut *)
Definition Cut (s sep : string) : string * string * bool :=
  match Index s sep with
  | Some i => (sliceTo s i, sliceFrom s (i + String.length sep), true)
  | None => (s, "", false)
  end.

(** strings.Split for a separator of one byte. *)
Fixpoint Split (s : string) (sep : ascii) : list string :=
  match s with
  | EmptyString => [""]
  | String c s' =>
      if Ascii.eqb c sep then "" :: Split s' sep
      else match Split s' sep with
           | head :: rest => String c head :: rest
           | [] => [String c ""]
           end
  end.

(** regexp.QuoteMeta: a backslash before each of the bytes
    [\.+*?()|[]{}^$]. *)
Definition special (b : ascii) : bool :=
  existsb (Ascii.eqb b)
    ["\"; "."; "+"; "*"; "?"; "("; ")"; "|"; "["; "]"; "{"; "}"; "^"; "$"]%char.

Fixpoint QuoteMeta (s : string) : string :=
  match s with
  | EmptyString => ""
  | String c s' =>
      if special c then String "\" (String c (QuoteMeta s'))
      else String c (QuoteMeta s')
  end.

(** *** The helpers (logging.go:167-287) *)

(** logging.go:167-174 *)
Fixpoint Contains (l : list string) (s : string) : bool :=
  match l with
  | [] => false
  | a :: l' => if bool_decide (a = s) then true else Contains l' s
  end.

(** logging.go:176-183 *)
Fixpoint Intersects (a b : list string) : bool :=
  match a with
  | [] => false
  | v :: a' => if Contains b v then true else Intersects a' b
  end.

(** logging.go:192-199 *)
Fixpoint ContainsPrefix (name : string) (prefixes : list string)
    : string * bool :=
  match prefixes with
  | [] => ("", false)
  | prefix :: prefixes' =>
      if HasPrefix name prefix then (prefix, true)
      else ContainsPrefix name prefixes'
  end.

(** logging.go:185-190 *)
Definition ContainsAndTrimPrefix (name : string) (prefixes : list string)
    : string * bool :=
  let '(prefix, ok) := ContainsPrefix name prefixes in
  if ok then (TrimPrefix name prefix, true) else (name, false).

(** logging.go:201-206; a nil pointer is [None]. *)
Definition GetFirstNotNil {T} (t1 t2 : option T) : option T :=
  match t1 with
  | Some _ => t1
  | None => t2
  end.

(** logging.go:207-258.  The environment is a map from names to values;
    the variadic [def] is the list of the arguments given; the parsers of
    strconv and time are parameters, [None] being their error; a result
    [None] of a lookup is its panic. *)
Section Env.
Variable env : gmap string string.
Variable Atoi : string → option Z.
Variable ParseBool : string → option bool.
Variable ParseDuration : string → option Z.

(** logging.go:222-230 *)
Definition LookupEnv (key : string) (def : list string) : string :=
  match env !! key with
  | Some value => value
  | None => match def with
            | d :: _ => d
            | [] => ""
            end
  end.

(** logging.go:207-220 *)
Definition LookupInt (key : string) (def : list Z) : option Z :=
  let val := LookupEnv key [""] in
  if bool_decide (val = "") then
    match def with
    | d :: _ => Some d
    | [] => Some 0
    end
  else Atoi val.

(** logging.go:231-243 *)
Definition LookupDuration (key : string) (def : list Z) : option Z :=
  match env !! key with
  | Some value => ParseDuration value
  | None => match def with
            | d :: _ => Some d
            | [] => Some 0
            end
  end.

(** logging.go:245-258 *)
Definition LookupBool (key : string) (def : list bool) : option bool :=
  let val := LookupEnv key [""] in
  if bool_decide (val = "") then
    match def with
    | d :: _ => Some d
    | [] => Some false
    end
  else ParseBool val.

End Env.

(** The loop of logging.go:266-276 from index [i] on. *)
Fixpoint writeLiterals (i : nat) (literals : list string) (result : string)
    : string :=
  match literals with
  | [] => result
  | literal :: literals' =>
      let result := if (0 <? i)%nat then result +:+ ".*" else result in
      writeLiterals (S i) literals' (result +:+ QuoteMeta literal)
  end.

(** logging.go:264-278 *)
Definition wildCardToRegexp (pattern : string) : string :=
  writeLiterals 0 (Split pattern "*") "".

(** logging.go:280-287 *)
Definition GetRepositoryAndTag (image : string) : string * string :=
  let image := TrimPrefix image "/" in
  let '(repository, tag, found) := Cut image ":" in
  if found then (repository, tag) else (repository, "latest").

End Utils.

(** ** The earlier revision of the exporter (part_000)

    One mutex, no background refresh: [Collect] does the whole collection
    itself, region after region, while it holds [mu]. *)

Module Earlier.

(** part_000:19-44 *)
Definition baseLabels : list string :=
  ["dimension_DBInstanceIdentifier"; "az"; "secondary_az"; "storage_type";
   "region"; "name"; "db_instance_class"; "engine"].
Definition tags : list string :=
  ["billing"; "purpose"; "team"; "region"; "environment"].
Definition dynLabels : list string := createDynLabels baseLabels tags.

Definition allocatedStorageDesc : Desc :=
  NewDesc "aws_rds_allocated_storage"
          "Allocated storage for RDS instance in GB" dynLabels.
Definition maxAllocatedStorageDesc : Desc :=
  NewDesc "aws_rds_max_allocated_storage"
          "Max allocated storage for RDS instance in GB" dynLabels.
Definition iopsDesc : Desc :=
  NewDesc "aws_rds_iops" "IOPS for RDS instance" dynLabels.
Definition storageThroughputDesc : Desc :=
  NewDesc "aws_rds_storage_throughput"
          "Storage throughput for RDS instance" dynLabels.

(** part_000:46-66 *)
Record RDSExporter := mkExporter {
  cache : list Metric;
  lastUpdate : Z
}.

Record Process := mkProcess {
  exporter : RDSExporter;
  logs : list string
}.

Definition NewRDSExporter : RDSExporter := mkExporter [] 0.

(** [time.Hour] *)
Definition Hour : Z := 3600 * 10 ^ 9.

(** part_000:108-120 *)
Definition baseValues (regionName : string) (instance : DBInstance)
    : Go (list string) :=
  identifier <- deref (DBInstanceIdentifier instance) ;;
  az <- deref (AvailabilityZone instance) ;;
  let secondary :=
    match SecondaryAvailabilityZone instance with
    | Some z => z
    | None => ""
    end in
  storage <- deref (StorageType instance) ;;
  arn <- deref (DBInstanceArn instance) ;;
  class <- deref (DBInstanceClass instance) ;;
  engine <- deref (Engine instance) ;;
  ret [identifier; az; secondary; storage; regionName; arn; class; engine].

(** part_000:122-140: the tag values are appended as the instance lists
    them. *)
Definition tagValues (aws : Provider) (regionName : string)
    (instance : DBInstance) (labels : list string) : Go (list string) :=
  match ListTagsForResource aws regionName (DBInstanceArn instance) with
  | Err err =>
      arn <- deref (DBInstanceArn instance) ;;
      _ <- logPrintf ("Error listing tags for RDS instance " +:+ arn
                      +:+ " : " +:+ err) ;;
      ret labels
  | Ok tagList =>
      if bool_decide (length tagList = 0%nat) then
        ret (foldl (λ labels _, labels ++ [""]) labels tags)
      else
        ret (foldl (λ labels tag,
                      match Key tag, Value tag with
                      | Some k, Some v =>
                          if bool_decide (k ∈ tags) then labels ++ [v]
                          else labels
                      | _, _ => labels
                      end) labels tagList)
  end.

(** part_000:107-160 *)
Definition collectInstance (aws : Provider) (regionName : string)
    (instance : DBInstance) : Go unit :=
  labels <- baseValues regionName instance ;;
  labels <- tagValues aws regionName instance labels ;;
  _ <- gauge allocatedStorageDesc (AllocatedStorage instance) labels ;;
  _ <- gauge maxAllocatedStorageDesc (MaxAllocatedStorage instance) labels ;;
  _ <- gauge iopsDesc (Iops instance) labels ;;
  gauge storageThroughputDesc (StorageThroughput instance) labels.

(** part_000:100-168 *)
Fixpoint collectPages (fuel : nat) (aws : Provider) (regionName : string)
    (marker : option string) : Go unit :=
  match fuel with
  | O => ([], Running)
  | S fuel' =>
      match DescribeDBInstances aws regionName marker with
      | Err err =>
          logPrintf ("Couldn't list RDS instances in region " +:+ regionName
                     +:+ " : " +:+ err)
      | Ok output =>
          _ <- forRange (DBInstances output) (collectInstance aws regionName) ;;
          match Marker output with
          | None => ret tt
          | Some next => collectPages fuel' aws regionName (Some next)
          end
      end
  end.

(** part_000:96-169 *)
Definition collectRegions (fuel : nat) (aws : Provider)
    (regions : list Region) : Go unit :=
  forRange regions (λ region,
    regionName <- deref (RegionName region) ;;
    collectPages fuel aws regionName None).

Inductive outcome :=
| Returned (p : Process)
| Crashed
| OutOfFuel.

(** part_000:75-171: the samples sent on the channel and how the call ends.
    Every emitted sample is appended to the cache and sent. *)
Definition Collect (fuel : nat) (now : Z) (aws : Provider) (p : Process)
    : list Metric * outcome :=
  let e := exporter p in
  if bool_decide (Hour < Since now (lastUpdate e)) then
    (cache e, Returned p)
  else
    match ListRegions aws with
    | Err err =>
        ([], Returned (mkProcess (mkExporter [] (lastUpdate e))
                                 (logs p ++ ["Error listing regions: " +:+ err])))
    | Ok regions =>
        let '(t, st) := collectRegions fuel aws regions in
        (emitted t,
         match st with
         | Done _ => Returned (mkProcess (mkExporter (emitted t) now)
                                         (logs p ++ logged t))
         | Panicked => Crashed
         | Running => OutOfFuel
         end)
    end.

(** Scrape after scrape, as long as the calls return. *)
Fixpoint scrapes (fuel : nat) (aws : Provider) (times : list Z) (p : Process)
    : list (list Metric) * outcome :=
  match times with
  | [] => ([], Returned p)
  | now :: times' =>
      match Collect fuel now aws p with
      | (sent, Returned p') =>
          let '(more, end_) := scrapes fuel aws times' p' in
          (sent :: more, end_)
      | (sent, stop) => ([sent], stop)
      end
  end.

End Earlier.

(** ** Vocabulary of the statements *)

Definition present {A} (p : option A) : bool :=
  match p with Some _ => true | None => false end.

(** The attributes main.go:142-152 dereferences. *)
Definition required (instance : DBInstance) : bool :=
  present (DBInstanceIdentifier instance) && present (AvailabilityZone instance)
  && present (StorageType instance) && present (DBInstanceClass instance)
  && present (Engine instance).

(** The instance gets through the loop body without a nil dereference: the
    resource name is dereferenced only to log a failed tag fetch. *)
Definition processed (aws : Provider) (regionName : string)
    (instance : DBInstance) : bool :=
  required instance &&
  match ListTagsForResource aws regionName (DBInstanceArn instance) with
  | Err _ => present (DBInstanceArn instance)
  | Ok _ => true
  end.

(** The seven base values, in the order of [baseLabels]. *)
Definition baseOf (regionName : string) (instance : DBInstance) : list string :=
  [default "" (DBInstanceIdentifier instance);
   default "" (AvailabilityZone instance);
   default "" (SecondaryAvailabilityZone instance);
   default "" (StorageType instance);
   regionName;
   default "" (DBInstanceClass instance);
   default "" (Engine instance)].

(** The value the instance's tag list gives to key [k]: that of the last tag
    whose key is exactly [k] and whose value is set. *)
Definition lastTagValue (tagList : list Tag) (k : string) : option string :=
  last (omap (λ tag, match Key tag, Value tag with
                     | Some k', Some v =>
                         if bool_decide (k' = k) then Some v else None
                     | _, _ => None
                     end) tagList).

Definition tagLog (aws : Provider) (regionName : string)
    (instance : DBInstance) : list event :=
  match ListTagsForResource aws regionName (DBInstanceArn instance) with
  | Err err =>
      [EvLog ("Error listing tags for RDS instance "
              +:+ default "" (DBInstanceArn instance) +:+ " : " +:+ err)]
  | Ok _ => []
  end.

Definition tagSlot (aws : Provider) (regionName : string)
    (instance : DBInstance) (k : string) : string :=
  match ListTagsForResource aws regionName (DBInstanceArn instance) with
  | Err _ => ""
  | Ok tagList => default "" (lastTagValue tagList k)
  end.

Definition labelsOf (tags : list string) (aws : Provider) (regionName : string)
    (instance : DBInstance) : list string :=
  baseOf regionName instance ++ (tagSlot aws regionName instance <$> tags).

(** No sample for an absent field, one for a populated field. *)
Definition sample (d : Desc) (field : option Z) (labels : list string)
    : list Metric :=
  match field with
  | Some v => [mkMetric d GaugeValue v labels]
  | None => []
  end.

Definition samplesOf (tags : list string) (labels : list string)
    (instance : DBInstance) : list Metric :=
  sample (allocatedStorageDesc tags) (AllocatedStorage instance) labels
  ++ sample (maxAllocatedStorageDesc tags) (MaxAllocatedStorage instance) labels
  ++ sample (iopsDesc tags) (Iops instance) labels
  ++ sample (storageThroughputDesc tags) (StorageThroughput instance) labels.

(** The samples of a list that carry a given metric name. *)
Definition named (name : string) (ms : list Metric) : list Metric :=
  filter (λ m, fqName (desc m) = name) ms.









(** At most one goroutine is inside the refresh cycle. *)
Definition exclusive (s : Refresh.System) : Prop :=
  ∀ i j, Refresh.updaters s !! i = Some Refresh.InCycle →
         Refresh.updaters s !! j = Some Refresh.InCycle → i = j.

(** A goroutine that panicked shows the panic in its trace. *)
Definition loud {A} (m : Go A) : Prop :=
  m.2 = Panicked → EvPanic ∈ m.1.

(** The byte [c] occurs in [s]. *)
Fixpoint occurs (c : ascii) (s : string) : bool :=
  match s with
  | EmptyString => false
  | String d s' => Ascii.eqb d c || occurs c s'
  end.

(** Reading a pattern back from the expression [Utils.wildCardToRegexp]
    writes: a backslash gives the byte after it, [.*] gives a star. *)
Fixpoint unquote (r : string) : string :=
  match r with
  | EmptyString => ""
  | String c r' =>
      if Ascii.eqb c "\" then
        match r' with
        | String d r'' => String d (unquote r'')
        | EmptyString => String c ""
        end
      else if Ascii.eqb c "." then
        match r' with
        | String d r'' =>
            if Ascii.eqb d "*" then String "*" (unquote r'')
            else String c (unquote r')
        | EmptyString => String c ""
        end
      else String c (unquote r')
  end.

(** In the earlier revision: the tags of an instance whose value is
    appended to the labels. *)
Definition configuredTag (tag : Tag) : bool :=
  match Key tag, Value tag with
  | Some k, Some _ => bool_decide (k ∈ Earlier.tags)
  | _, _ => false
  end.

(** ** Inputs used to exercise the statements *)

Definition hour : Z := 3600 * 10 ^ 9.

Definition db1 : DBInstance :=
  mkDBInstance (Some "db-1") (Some "us-east-1a") None (Some "gp3")
               (Some "db.t3.micro") (Some "postgres") (Some "arn:db-1")
               (Some 100) None (Some 3000) None.

(** One region, one page holding [db1], one tag [team = core]. *)
Definition aws1 : Provider :=
  mkProvider (Ok [mkRegion (Some "us-east-1")])
             (λ _ _, Ok (mkOutput [db1] None))
             (λ _ _, Ok [mkTag (Some "team") (Some "core")]).

(** As [aws1], but the tag listing is refused. *)
Definition awsNoTags : Provider :=
  mkProvider (Ok [mkRegion (Some "us-east-1")])
             (λ _ _, Ok (mkOutput [db1] None))
             (λ _ _, Err "AccessDenied").

(** The two samples of [db1] under the tag keys main.go declares. *)
Definition tuple1 : list string :=
  ["db-1"; "us-east-1a"; ""; "gp3"; "us-east-1"; "db.t3.micro"; "postgres";
   ""; "core"; ""; ""].
Definition alloc1 : Metric :=
  mkMetric (allocatedStorageDesc tags) GaugeValue 100 tuple1.
Definition iops1 : Metric :=
  mkMetric (iopsDesc tags) GaugeValue 3000 tuple1.

Definition db2 : DBInstance :=
  mkDBInstance (Some "db-2") (Some "eu-west-1b") (Some "eu-west-1c")
               (Some "io1") (Some "db.m5.large") (Some "mysql")
               (Some "arn:db-2") (Some 500) (Some 1000) None None.

Definition page2 : DescribeDBInstancesOutput := mkOutput [db2] (Some "t1").

(** Two regions: [eu-west-1] serves [page2] and then fails on the marker it
    handed out; [us-east-1] serves its single page. *)
Definition aws2 : Provider :=
  mkProvider (Ok [mkRegion (Some "eu-west-1"); mkRegion (Some "us-east-1")])
             (λ r marker,
                if String.eqb r "eu-west-1" then
                  match marker with
                  | None => Ok page2
                  | Some _ => Err "Throttling"
                  end
                else Ok (mkOutput [db1] None))
             (λ _ _, Ok [mkTag (Some "team") (Some "core")]).

(** Region enumeration fails. *)
Definition awsDown : Provider :=
  mkProvider (Err "RequestTimeout")
             (λ _ _, Ok (mkOutput [db1] None))
             (λ _ _, Ok []).


(** A process that has served [alloc1] since its refresh at instant [7]. *)
Definition served : Process :=
  mkProcess (mkExporter [alloc1] hour 7) [].



(** [db1] without its resource name. *)
Definition dbNoArn : DBInstance :=
  mkDBInstance (Some "db-1") (Some "us-east-1a") None (Some "gp3")
               (Some "db.t3.micro") (Some "postgres") None
               (Some 100) None (Some 3000) None.

(** The second region comes without a name. *)
Definition awsNamelessRegion : Provider :=
  mkProvider (Ok [mkRegion (Some "us-east-1"); mkRegion None])
             (λ _ _, Ok (mkOutput [db1] None))
             (λ _ _, Ok []).

(** [db1] without its availability zone. *)
Definition dbNoZone : DBInstance :=
  mkDBInstance (Some "db-3") None None (Some "gp3")
               (Some "db.t3.micro") (Some "postgres") (Some "arn:db-3")
               (Some 100) None None None.

Definition awsNoZone : Provider :=
  mkProvider (Ok [mkRegion (Some "us-east-1")])
             (λ _ _, Ok (mkOutput [db1; dbNoZone] None))
             (λ _ _, Ok []).


(** Every page comes with a marker. *)
Definition awsEndless : Provider :=
  mkProvider (Ok [mkRegion (Some "us-east-1")])
             (λ _ _, Ok (mkOutput [db1] (Some "more")))
             (λ _ _, Ok []).

(** An environment in which [PORT] is set to the empty string. *)
Definition envEmptyPort : gmap string string := {["PORT" := ""]}.

(** ** The label tuple and the samples of one instance *)

Lemma bind_done {A B} (t : list event) (a : A) (k : A → Go B) :
  bind (t, Done a) k = (t ++ (k a).1, (k a).2).
Proof. unfold bind. by destruct (k a). Qed.

Lemma bind_ret {A B} (a : A) (k : A → Go B) : bind (ret a) k = k a.
Proof. unfold bind, ret. by destruct (k a). Qed.

Lemma bind_ext {A B} (m : Go A) (k1 k2 : A → Go B) :
  (∀ a, k1 a = k2 a) → bind m k1 = bind m k2.
Proof. intros Hk. destruct m as [t [a| |]]; simpl; by rewrite ?Hk. Qed.

Lemma forget_lift {A} (m : Go A) : forget (lift m) = m.
Proof.
  destruct m as [t st]. unfold forget, lift. cbn [fst snd]. f_equal.
  induction t as [|ev t IH]; [done|]. cbn. f_equal. exact IH.
Qed.

Lemma forget_bindT {A B} (m : Traced A) (k : A → Traced B) :
  forget (bindT m k) = bind (forget m) (λ a, forget (k a)).
Proof.
  destruct m as [t [a| |]]; unfold forget; simpl; try done.
  destruct (k a) as [t' st']. simpl. by rewrite omap_app.
Qed.

Lemma collectPages_0 tgs aws r marker :
  collectPages tgs 0 aws r marker = ([], Running).
Proof. reflexivity. Qed.

(** One turn of the loop, as main.go:134-203 reads. *)
Lemma collectPages_S tgs fuel aws r marker :
  collectPages tgs (S fuel) aws r marker
  = match DescribeDBInstances aws r marker with
    | Err err =>
        logPrintf ("Couldn't list RDS instances in region " +:+ r
                   +:+ " : " +:+ err)
    | Ok output =>
        _ <- forRange (DBInstances output) (collectInstance tgs aws r) ;;
        match Marker output with
        | None => ret tt
        | Some next => collectPages tgs fuel aws r (Some next)
        end
    end.
Proof.
  unfold collectPages. cbn [collectPagesCalls]. rewrite forget_bindT.
  change (forget (called marker)) with (@ret unit tt). rewrite bind_ret.
  destruct (DescribeDBInstances aws r marker) as [output|err];
    [|apply forget_lift].
  rewrite forget_bindT, forget_lift. apply bind_ext. intros _.
  destruct (Marker output); [done|apply forget_lift].
Qed.

Lemma createDynLabels_app (base tgs : list string) :
  createDynLabels base tgs = base ++ (String.append "tag_" <$> tgs).
Proof.
  revert base. induction tgs as [|tag tgs IH]; intros base; simpl.
  - by rewrite app_nil_r.
  - unfold createDynLabels in *. simpl. rewrite IH. by rewrite <- app_assoc.
Qed.

Lemma length_dynLabels (tgs : list string) :
  length (dynLabels tgs) = (length baseLabels + length tgs)%nat.
Proof.
  unfold dynLabels. rewrite createDynLabels_app, length_app, length_fmap. done.
Qed.

Lemma length_labelsOf tgs aws r i :
  length (labelsOf tgs aws r i) = (length baseLabels + length tgs)%nat.
Proof. unfold labelsOf. rewrite length_app, length_fmap. done. Qed.

Lemma gauge_sample (d : Desc) (field : option Z) (labels : list string) :
  length labels = length (variableLabels d) →
  gauge d field labels = (EvEmit <$> sample d field labels, Done tt).
Proof.
  intros Hlen. unfold gauge, MustNewConstMetric, sample.
  destruct field as [v|]; [|done].
  rewrite bool_decide_eq_true_2 by done. done.
Qed.

Lemma emptyTagMap_lookup (tgs : list string) (k : string) :
  default "" (emptyTagMap tgs !! k) = "".
Proof.
  unfold emptyTagMap.
  assert (∀ (m : gmap string string),
            default "" (m !! k) = "" →
            default "" (foldl (λ tagMap tag, <[tag := ""]> tagMap) m tgs !! k) = "")
    as Hgen.
  { induction tgs as [|tag tgs IH]; intros m Hm; simpl; [done|].
    apply IH. destruct (decide (tag = k)) as [->|Hne].
    - by rewrite lookup_insert_eq.
    - by rewrite lookup_insert_ne. }
  apply Hgen. by rewrite lookup_empty.
Qed.

Lemma fillTagMap_lookup (tgs : list string) (tagList : list Tag)
    (m : gmap string string) (k : string) :
  k ∈ tgs →
  fillTagMap tgs tagList m !! k =
    match lastTagValue tagList k with
    | Some v => Some v
    | None => m !! k
    end.
Proof.
  intros Hk. revert m.
  induction tagList as [|tag tagList IH]; intros m; [done|].
  unfold fillTagMap in *. simpl foldl. rewrite IH. clear IH.
  unfold lastTagValue. simpl omap.
  destruct tag as [[k'|] [v|]]; simpl; try done.
  destruct (decide (k' = k)) as [->|Hne].
  - rewrite !bool_decide_eq_true_2 by done. rewrite last_cons.
    destruct (last _); [done|]. by rewrite lookup_insert_eq.
  - rewrite (bool_decide_eq_false_2 (k' = k)) by done.
    destruct (last _); [done|].
    case_bool_decide; [by rewrite lookup_insert_ne|done].
Qed.

Lemma tagValues_empty (tgs : list string) :
  tagValues tgs (emptyTagMap tgs) = (λ _, "") <$> tgs.
Proof.
  unfold tagValues. apply list_fmap_ext. intros _ k _.
  apply emptyTagMap_lookup.
Qed.

Lemma tagValues_fill (tgs : list string) (tagList : list Tag) :
  tagValues tgs (fillTagMap tgs tagList (emptyTagMap tgs))
  = (λ k, default "" (lastTagValue tagList k)) <$> tgs.
Proof.
  unfold tagValues. apply list_fmap_ext. intros j k Hj.
  rewrite fillTagMap_lookup by (by eapply list_elem_of_lookup_2).
  destruct (lastTagValue tagList k); [done|]. apply emptyTagMap_lookup.
Qed.

Lemma baseValues_required (r : string) (i : DBInstance) :
  required i = true → baseValues r i = ([], Done (baseOf r i)).
Proof.
  unfold required, baseValues, baseOf.
  destruct i as [[?|] [?|] ? [?|] [?|] [?|] ? ? ? ? ?]; simpl; try done.
Qed.

Lemma baseValues_panics (r : string) (i : DBInstance) :
  required i = false → baseValues r i = ([EvPanic], Panicked).
Proof.
  unfold required, baseValues.
  destruct i as [[?|] [?|] ? [?|] [?|] [?|] ? ? ? ? ?]; simpl; try done.
Qed.

Lemma fetchTags_processed tgs aws r i :
  processed aws r i = true →
  ∃ tagMap, fetchTags tgs aws r i = (tagLog aws r i, Done tagMap)
            ∧ tagValues tgs tagMap = tagSlot aws r i <$> tgs.
Proof.
  unfold processed, fetchTags, tagLog, tagSlot.
  intros [_ Harn]%andb_true_iff.
  destruct (ListTagsForResource aws r (DBInstanceArn i)) as [tagList|err].
  - eexists. split; [done|]. apply tagValues_fill.
  - destruct (DBInstanceArn i) as [arn|]; [|done].
    eexists. split; [done|]. apply tagValues_empty.
Qed.

Lemma fetchTags_panics tgs aws r i :
  required i = true → processed aws r i = false →
  fetchTags tgs aws r i = ([EvPanic], Panicked).
Proof.
  unfold processed, fetchTags. intros -> Harn. simpl in Harn.
  destruct (ListTagsForResource aws r (DBInstanceArn i)); [done|].
  by destruct (DBInstanceArn i).
Qed.

Lemma collectInstance_processed tgs aws r i :
  processed aws r i = true →
  collectInstance tgs aws r i
  = (tagLog aws r i ++ (EvEmit <$> samplesOf tgs (labelsOf tgs aws r i) i),
     Done tt).
Proof.
  intros Hp. unfold collectInstance.
  destruct (fetchTags_processed tgs aws r i Hp) as (tagMap & Hfetch & Hslots).
  apply andb_true_iff in Hp as [Hreq _].
  rewrite (baseValues_required r i Hreq), bind_done. simpl.
  rewrite Hfetch, bind_done. simpl. rewrite Hslots.
  fold (labelsOf tgs aws r i).
  assert (∀ d, variableLabels d = dynLabels tgs →
               length (labelsOf tgs aws r i) = length (variableLabels d))
    as Hlen.
  { intros d ->. by rewrite length_labelsOf, length_dynLabels. }
  rewrite !gauge_sample by (by apply Hlen).
  rewrite !bind_done. simpl. unfold samplesOf.
  by rewrite !fmap_app.
Qed.

Lemma collectInstance_panics tgs aws r i :
  processed aws r i = false →
  collectInstance tgs aws r i = ([EvPanic], Panicked).
Proof.
  intros Hp. unfold collectInstance.
  destruct (required i) eqn:Hreq.
  - rewrite (baseValues_required r i Hreq), bind_done. simpl.
    by rewrite (fetchTags_panics tgs aws r i Hreq Hp).
  - by rewrite (baseValues_panics r i Hreq).
Qed.

Lemma emitted_app (t1 t2 : list event) :
  emitted (t1 ++ t2) = emitted t1 ++ emitted t2.
Proof. unfold emitted. apply omap_app. Qed.

Lemma emitted_emit (ms : list Metric) : emitted (EvEmit <$> ms) = ms.
Proof. induction ms as [|m ms IH]; simpl; [done|]. by f_equal. Qed.

Lemma emitted_tagLog aws r i : emitted (tagLog aws r i) = [].
Proof. unfold tagLog. by destruct (ListTagsForResource _ _ _). Qed.

Lemma emitted_collectInstance tgs aws r i :
  emitted (trace (collectInstance tgs aws r i))
  = if processed aws r i then samplesOf tgs (labelsOf tgs aws r i) i else [].
Proof.
  destruct (processed aws r i) eqn:Hp.
  - rewrite collectInstance_processed by done. unfold trace. simpl.
    by rewrite emitted_app, emitted_tagLog, emitted_emit.
  - by rewrite collectInstance_panics.
Qed.

Lemma samplesOf_inv tgs labels i m :
  m ∈ samplesOf tgs labels i →
  labelValues m = labels ∧ variableLabels (desc m) = dynLabels tgs.
Proof.
  unfold samplesOf, sample. intros Hm.
  repeat (apply elem_of_app in Hm as [Hm|Hm]);
    repeat match goal with
           | H : _ ∈ match ?f with _ => _ end |- _ => destruct f
           end;
    repeat match goal with
           | H : _ ∈ [] |- _ => by apply elem_of_nil in H
           | H : _ ∈ [_] |- _ => apply list_elem_of_singleton in H as ->
           end; done.
Qed.

Lemma emitted_inv tgs aws r i m :
  m ∈ emitted (trace (collectInstance tgs aws r i)) →
  processed aws r i = true ∧ labelValues m = labelsOf tgs aws r i
  ∧ variableLabels (desc m) = dynLabels tgs.
Proof.
  rewrite emitted_collectInstance. destruct (processed aws r i).
  - intros Hm%samplesOf_inv. tauto.
  - by intros ?%elem_of_nil.
Qed.

(** C5 — Two samples emitted for one instance carry the same label tuple;
    its length is the number of base labels plus the number of tag keys,
    which is also the number of labels the sample's descriptor declares;
    the first seven values are identifier, zone, secondary zone (or the
    empty string), storage type, region, class and engine, and slot
    [7 + k] holds the value of the [k]-th tag key. *)
Theorem C5_label_tuple (tgs : list string) (aws : Provider) (r : string)
    (i : DBInstance) (m m' : Metric) :
  m ∈ emitted (trace (collectInstance tgs aws r i)) →
  m' ∈ emitted (trace (collectInstance tgs aws r i)) →
  labelValues m = labelValues m'
  ∧ length (labelValues m) = (length baseLabels + length tgs)%nat
  ∧ variableLabels (desc m) = baseLabels ++ (String.append "tag_" <$> tgs)
  ∧ length (labelValues m) = length (variableLabels (desc m))
  ∧ labelValues m !! 0%nat = DBInstanceIdentifier i
  ∧ labelValues m !! 1%nat = AvailabilityZone i
  ∧ labelValues m !! 2%nat = Some (default "" (SecondaryAvailabilityZone i))
  ∧ labelValues m !! 3%nat = StorageType i
  ∧ labelValues m !! 4%nat = Some r
  ∧ labelValues m !! 5%nat = DBInstanceClass i
  ∧ labelValues m !! 6%nat = Engine i
  ∧ ∀ (k : nat) (tag : string),
      tgs !! k = Some tag →
      labelValues m !! (length baseLabels + k)%nat = Some (tagSlot aws r i tag).
Proof.
  intros (Hp & Hm & Hd)%emitted_inv (_ & Hm' & _)%emitted_inv.
  rewrite Hm, Hm', Hd, length_labelsOf.
  unfold dynLabels. rewrite createDynLabels_app, length_app, length_fmap.
  apply andb_true_iff in Hp as [Hreq _]. unfold required in Hreq.
  repeat split; try done;
    try (destruct i as [[?|] [?|] ? [?|] [?|] [?|] ? ? ? ? ?]; done).
  intros k tag Hk. unfold labelsOf.
  rewrite lookup_app_r by (simpl; lia).
  replace (length baseLabels + k - length (baseOf r i))%nat with k
    by (simpl; lia).
  by rewrite list_lookup_fmap, Hk.
Qed.

Lemma C5_label_tuple_witness :
  alloc1 ∈ emitted (trace (collectInstance tags aws1 "us-east-1" db1))
  ∧ iops1 ∈ emitted (trace (collectInstance tags aws1 "us-east-1" db1))
  ∧ labelValues alloc1 = labelValues iops1
  ∧ length (labelValues alloc1) = 11%nat.
Proof.
  assert (emitted (trace (collectInstance tags aws1 "us-east-1" db1))
          = [alloc1; iops1]) as Hms by (vm_compute; reflexivity).
  assert (alloc1 ∈ emitted (trace (collectInstance tags aws1 "us-east-1" db1)))
    as Ha by (rewrite Hms; apply list_elem_of_here).
  assert (iops1 ∈ emitted (trace (collectInstance tags aws1 "us-east-1" db1)))
    as Hi by (rewrite Hms; apply list_elem_of_further, list_elem_of_here).
  destruct (C5_label_tuple tags aws1 "us-east-1" db1 alloc1 iops1 Ha Hi)
    as (Heq & Hlen & _).
  split; [exact Ha | split; [exact Hi | split; [exact Heq | exact Hlen]]].
Defined.

(** C6 (as amended) — For an instance the collector processes (it carries
    the attributes main.go:142-152 dereferences, and its resource name when
    the tag fetch fails), the samples carrying a metric name are exactly one
    sample with the field's value when the field is populated and none when
    it is absent, for each of the four optional numeric fields, and nothing
    else is emitted.  For any other instance the collector panics and no
    sample at all is emitted, populated fields included.  For every
    instance, a field that is absent yields no sample of its metric. *)
Theorem C6_one_sample_per_populated_field (tgs : list string) (aws : Provider)
    (r : string) (i : DBInstance) :
  let ms := emitted (trace (collectInstance tgs aws r i)) in
  let labels := labelsOf tgs aws r i in
  (processed aws r i = true →
   named "aws_rds_allocated_storage" ms
     = sample (allocatedStorageDesc tgs) (AllocatedStorage i) labels
   ∧ named "aws_rds_max_allocated_storage" ms
     = sample (maxAllocatedStorageDesc tgs) (MaxAllocatedStorage i) labels
   ∧ named "aws_rds_iops" ms
     = sample (iopsDesc tgs) (Iops i) labels
   ∧ named "aws_rds_storage_throughput" ms
     = sample (storageThroughputDesc tgs) (StorageThroughput i) labels
   ∧ ms = named "aws_rds_allocated_storage" ms
          ++ named "aws_rds_max_allocated_storage" ms
          ++ named "aws_rds_iops" ms
          ++ named "aws_rds_storage_throughput" ms
   ∧ length ms = (length (option_list (AllocatedStorage i))
                  + length (option_list (MaxAllocatedStorage i))
                  + length (option_list (Iops i))
                  + length (option_list (StorageThroughput i)))%nat)
  ∧ (processed aws r i = false →
     collectInstance tgs aws r i = ([EvPanic], Panicked) ∧ ms = [])
  ∧ (AllocatedStorage i = None → named "aws_rds_allocated_storage" ms = [])
  ∧ (MaxAllocatedStorage i = None →
     named "aws_rds_max_allocated_storage" ms = [])
  ∧ (Iops i = None → named "aws_rds_iops" ms = [])
  ∧ (StorageThroughput i = None → named "aws_rds_storage_throughput" ms = []).
Proof.
  intros ms labels. subst ms.
  rewrite emitted_collectInstance. fold labels.
  split; [|split].
  - intros ->. generalize labels. clear. intros labels.
    unfold samplesOf, named, sample.
    destruct (AllocatedStorage i), (MaxAllocatedStorage i), (Iops i),
      (StorageThroughput i); repeat split; reflexivity.
  - intros Hp. rewrite Hp. split; [|done].
    by apply collectInstance_panics.
  - destruct (processed aws r i); [|done].
    generalize labels. clear. intros labels.
    unfold samplesOf, named, sample.
    repeat split; intros ->;
      destruct (AllocatedStorage i), (MaxAllocatedStorage i), (Iops i),
        (StorageThroughput i); reflexivity.
Qed.

Lemma C6_one_sample_per_populated_field_witness :
  named "aws_rds_allocated_storage"
        (emitted (trace (collectInstance tags aws1 "us-east-1" db1))) = [alloc1]
  ∧ named "aws_rds_max_allocated_storage"
        (emitted (trace (collectInstance tags aws1 "us-east-1" db1))) = []
  ∧ collectInstance tags awsNoZone "us-east-1" dbNoZone = ([EvPanic], Panicked).
Proof.
  destruct (C6_one_sample_per_populated_field tags aws1 "us-east-1" db1)
    as (Hprocessed & _ & _ & Hmax & _).
  destruct (Hprocessed eq_refl) as (Ha & _).
  destruct (C6_one_sample_per_populated_field tags awsNoZone "us-east-1"
              dbNoZone) as (_ & Hpanics & _).
  split; [|split].
  - rewrite Ha. vm_compute. reflexivity.
  - exact (Hmax eq_refl).
  - exact (proj1 (Hpanics eq_refl)).
Defined.

(** ** Tag slots *)

Lemma fmap_const_replicate {A B} (b : B) (l : list A) :
  (λ _, b) <$> l = replicate (length l) b.
Proof. induction l as [|a l IH]; simpl; [done|]. by f_equal. Qed.

Lemma lastTagValue_from_tag (tagList : list Tag) (k v : string) :
  lastTagValue tagList k = Some v →
  ∃ tag, tag ∈ tagList ∧ Key tag = Some k ∧ Value tag = Some v.
Proof.
  unfold lastTagValue. intros Hlast%last_Some_elem_of.
  apply list_elem_of_omap in Hlast as (tag & Hin & Hmatch).
  exists tag. split; [done|].
  destruct tag as [[k'|] [v'|]]; simpl in *; try done.
  case_bool_decide; by simplify_eq.
Qed.

Lemma lastTagValue_absent (tagList : list Tag) (k : string) :
  (∀ tag, tag ∈ tagList → Key tag = Some k → Value tag = None) →
  lastTagValue tagList k = None.
Proof.
  intros Habsent. destruct (lastTagValue tagList k) as [v|] eqn:Hl; [|done].
  apply lastTagValue_from_tag in Hl as (tag & Hin & Hk & Hv).
  specialize (Habsent tag Hin Hk). congruence.
Qed.

Lemma lastTagValue_other_key (l1 l2 : list Tag) (tag : Tag) (k : string) :
  Key tag ≠ Some k →
  lastTagValue (l1 ++ tag :: l2) k = lastTagValue (l1 ++ l2) k.
Proof.
  intros Hne. unfold lastTagValue. rewrite !omap_app. simpl.
  destruct tag as [[k'|] [v|]]; simpl in *; try done.
  case_bool_decide; [congruence|done].
Qed.

(** C7 (as amended) — For an instance that reaches the tag fetch (it
    carries the attributes main.go:142-152 dereferences): when the tag fetch
    fails and the instance carries a resource name, the failure is logged
    and the instance's samples are emitted with the empty string in every
    tag slot; when the tag fetch fails and the resource name is absent, the
    log statement of main.go:164 dereferences it and the collector panics:
    nothing is logged or emitted.  When the fetch succeeds, nothing is
    logged and slot [k] holds the value of the last tag whose key is exactly
    [k] (empty when there is none), so a value comes from a tag with that
    very key, a configured key without a valued tag yields the empty string,
    and a tag with any other key changes nothing. *)
Theorem C7_tag_fetch (tgs : list string) (aws : Provider) (r : string)
    (i : DBInstance) :
  required i = true →
  match ListTagsForResource aws r (DBInstanceArn i) with
  | Err err =>
      match DBInstanceArn i with
      | Some arn =>
          collectInstance tgs aws r i
          = (EvLog ("Error listing tags for RDS instance " +:+ arn
                    +:+ " : " +:+ err)
             :: (EvEmit <$> samplesOf tgs
                   (baseOf r i ++ replicate (length tgs) "") i),
             Done tt)
      | None => collectInstance tgs aws r i = ([EvPanic], Panicked)
      end
  | Ok tagList =>
      collectInstance tgs aws r i
      = (EvEmit <$> samplesOf tgs
           (baseOf r i ++ ((λ k, default "" (lastTagValue tagList k)) <$> tgs))
           i,
         Done tt)
      ∧ (∀ k v, lastTagValue tagList k = Some v →
                ∃ tag, tag ∈ tagList ∧ Key tag = Some k ∧ Value tag = Some v)
      ∧ (∀ k, (∀ tag, tag ∈ tagList → Key tag = Some k → Value tag = None) →
              default "" (lastTagValue tagList k) = "")
      ∧ (∀ l1 tag l2 k, tagList = l1 ++ tag :: l2 → Key tag ≠ Some k →
                        lastTagValue tagList k = lastTagValue (l1 ++ l2) k)
  end.
Proof.
  intros Hreq.
  pose proof (collectInstance_processed tgs aws r i) as Hdone.
  pose proof (collectInstance_panics tgs aws r i) as Hpanics.
  unfold processed, labelsOf, tagLog, tagSlot in Hdone, Hpanics.
  rewrite Hreq in Hdone, Hpanics. simpl in Hdone, Hpanics.
  destruct (ListTagsForResource aws r (DBInstanceArn i)) as [tagList|err].
  - split; [by apply Hdone|]. split; [apply lastTagValue_from_tag|]. split.
    + intros k Habsent. by rewrite lastTagValue_absent.
    + intros l1 tag l2 k -> Hne. by apply lastTagValue_other_key.
  - destruct (DBInstanceArn i) as [arn|].
    + rewrite Hdone by done. simpl. by rewrite fmap_const_replicate.
    + by apply Hpanics.
Qed.

Lemma C7_tag_fetch_witness :
  collectInstance tags awsNoTags "us-east-1" db1
  = ([EvLog "Error listing tags for RDS instance arn:db-1 : AccessDenied";
      EvEmit (mkMetric (allocatedStorageDesc tags) GaugeValue 100
                (baseOf "us-east-1" db1 ++ [""; ""; ""; ""]));
      EvEmit (mkMetric (iopsDesc tags) GaugeValue 3000
                (baseOf "us-east-1" db1 ++ [""; ""; ""; ""]))],
     Done tt)
  ∧ trace (collectInstance tags aws1 "us-east-1" db1)
    = [EvEmit alloc1; EvEmit iops1].
Proof.
  split.
  - exact (C7_tag_fetch tags awsNoTags "us-east-1" db1 eq_refl).
  - destruct (C7_tag_fetch tags aws1 "us-east-1" db1 eq_refl) as (Hrun & _).
    rewrite Hrun. vm_compute. reflexivity.
Defined.

(** C9 — The worked example: with tag keys [team; env], the instance [db-1]
    with tag [team = core], allocated storage 100, no max allocated storage
    and IOPS 3000 emits exactly the allocated-storage sample 100 and the
    IOPS sample 3000, both with the nine-value label tuple of the example. *)
Theorem C9_worked_example :
  collectInstance ["team"; "env"] aws1 "us-east-1" db1
  = ([EvEmit (mkMetric (allocatedStorageDesc ["team"; "env"]) GaugeValue 100
                ["db-1"; "us-east-1a"; ""; "gp3"; "us-east-1"; "db.t3.micro";
                 "postgres"; "core"; ""]);
      EvEmit (mkMetric (iopsDesc ["team"; "env"]) GaugeValue 3000
                ["db-1"; "us-east-1a"; ""; "gp3"; "us-east-1"; "db.t3.micro";
                 "postgres"; "core"; ""])],
     Done tt).
Proof. vm_compute. reflexivity. Qed.

(** The same instance under the tag keys main.go declares: eleven values. *)
Lemma worked_example_declared_tags :
  trace (collectInstance tags aws1 "us-east-1" db1)
  = [EvEmit alloc1; EvEmit iops1].
Proof. vm_compute. reflexivity. Qed.

(** ** Pagination of one region *)

Lemma forRange_processed tgs aws r (insts : list DBInstance) :
  Forall (λ i, processed aws r i = true) insts →
  forRange insts (collectInstance tgs aws r)
  = (concat ((λ i, trace (collectInstance tgs aws r i)) <$> insts), Done tt).
Proof.
  induction 1 as [|i insts Hi _ IH]; simpl; [done|].
  rewrite (collectInstance_processed tgs aws r i Hi), bind_done, IH. done.
Qed.


(** ** Panics show in the status *)





(** ** Interleavings *)

Lemma concat_lookup_middle {A} (ws : list (list A)) (j : nat) (t : list A) :
  ws !! j = Some t →
  concat ws = concat (take j ws) ++ t ++ concat (drop (S j) ws).
Proof.
  intros Hj. rewrite <- (take_drop_middle ws j t Hj) at 1.
  by rewrite concat_app.
Qed.

Lemma concat_insert_middle {A} (ws : list (list A)) (j : nat) (t t' : list A) :
  ws !! j = Some t →
  concat (<[j := t']> ws) = concat (take j ws) ++ t' ++ concat (drop (S j) ws).
Proof.
  intros Hj. rewrite insert_take_drop by (by eapply lookup_lt_Some).
  by rewrite concat_app.
Qed.

Lemma interleave_perm (sched : list nat) (ws : list (list event)) :
  interleave sched ws ≡ₚ concat ws.
Proof.
  revert ws. induction sched as [|i sched IH]; intros ws; simpl; [done|].
  destruct (ws !! i) as [[|ev rest]|] eqn:Hi; [apply IH| |apply IH].
  rewrite IH, (concat_lookup_middle ws i _ Hi),
    (concat_insert_middle ws i _ rest Hi). simpl.
  by rewrite Permutation_middle.
Qed.



Lemma emitted_concat (ws : list (list event)) :
  emitted (concat ws) = concat (emitted <$> ws).
Proof.
  induction ws as [|t ws IH]; simpl; [done|]. by rewrite emitted_app, IH.
Qed.

Lemma emitted_perm (t1 t2 : list event) :
  t1 ≡ₚ t2 → emitted t1 ≡ₚ emitted t2.
Proof. unfold emitted. by intros ->. Qed.



(** ** The refresh cycle *)

Lemma foldl_perform (evs : list event) (p : Process) :
  foldl perform p evs
  = mkProcess (mkExporter (cache (exporter p) ++ emitted evs)
                          (cacheTTL (exporter p)) (lastUpdate (exporter p)))
              (logs p ++ logged evs).
Proof.
  revert p. induction evs as [|ev evs IH]; intros [[c ttl lu] lg]; simpl.
  - by rewrite !app_nil_r.
  - rewrite IH. destruct ev; simpl; by rewrite <- ?app_assoc.
Qed.


Lemma spawn_names tgs fuel aws regions names :
  mapM RegionName regions = Some names →
  spawn tgs fuel aws regions
  = Some (collectRegionMetrics tgs fuel aws <$> names).
Proof. unfold spawn. by intros ->. Qed.


(** C4 — When region enumeration fails, [updateCache] returns (it does not
    crash), the exporter (cache and last-update instant alike) is what it
    was, one line recording the failure is logged, and a scrape during the
    cycle finds nothing but the state the cycle started from. *)
Theorem C4_enumeration_failure (tgs : list string) (sched : list nat)
    (fuel : nat) (now : Z) (aws : Provider) (p : Process) (err : string) :
  ListRegions aws = Err err →
  updateCache tgs sched fuel now aws p
  = Returned (mkProcess (exporter p)
                        (logs p ++ ["Error listing regions: " +:+ err]))
  ∧ observable tgs sched fuel aws p = [p].
Proof. intros Herr. unfold updateCache, observable. by rewrite Herr. Qed.

Lemma C4_enumeration_failure_witness :
  updateCache tags [0%nat] 3 99 awsDown served
  = Returned (mkProcess (mkExporter [alloc1] hour 7)
                        ["Error listing regions: RequestTimeout"]).
Proof.
  exact (proj1 (C4_enumeration_failure tags [0%nat] 3 99 awsDown served
                  "RequestTimeout" eq_refl)).
Defined.

(** ** Regions whose listings end *)







(** ** The calls of a listing *)







(** ** Writes to the cache while the collectors run *)

(** C1 — A cycle over one region holding [db1], started on a cache that
    holds one sample: the statements of main.go:180 and main.go:190 each
    append to the cache in place while the collector runs, so before the
    swap the cache takes two further values; the swap then installs the two
    samples received on the channel. *)
Theorem C1_cache_written_before_swap :
  (λ p, cache (exporter p)) <$> observable tags [] 1 aws1 served
  = [[alloc1]; [alloc1; alloc1]; [alloc1; alloc1; iops1]]
  ∧ updateCache tags [] 1 99 aws1 served
    = Returned (mkProcess (mkExporter [alloc1; iops1] hour 99) []).
Proof. split; vm_compute; reflexivity. Qed.

(** C2 — In the same cycle, a scrape that runs after the collector's first
    append and before the swap is sent a list that is neither the cache the
    cycle started from nor the cache the cycle installs. *)
Theorem C2_scrape_between_append_and_swap :
  ∃ mid : Process,
    observable tags [] 1 aws1 served !! 1%nat = Some mid
    ∧ (Collect 50 (exporter mid)).1 = [alloc1; alloc1]
    ∧ (Collect 50 (exporter mid)).1 ≠ cache (exporter served)
    ∧ ∀ p', updateCache tags [] 1 99 aws1 served = Returned p' →
            (Collect 50 (exporter mid)).1 ≠ cache (exporter p').
Proof.
  eexists. split; [vm_compute; reflexivity|].
  split; [reflexivity|]. split; [discriminate|].
  intros p' Hp'. vm_compute in Hp'. injection Hp' as <-. discriminate.
Qed.

(** ** The refresh lock *)

Import Refresh.

Lemma held_false (us : list pc) :
  held us = false ↔ ∀ i, us !! i ≠ Some InCycle.
Proof.
  unfold held. rewrite bool_decide_eq_false, list_elem_of_lookup.
  split; [intros Hno i Hi; apply Hno; eauto|intros Hno [i Hi]; by eapply Hno].
Qed.

Lemma held_true (us : list pc) :
  held us = true ↔ ∃ i, us !! i = Some InCycle.
Proof. unfold held. by rewrite bool_decide_eq_true, list_elem_of_lookup. Qed.

Lemma step_exclusive (a : action) (s s' : System) :
  exclusive s → step a s = Some s' → exclusive s'.
Proof.
  unfold exclusive. intros Hex Hstep i j.
  destruct a as [now|k|k installed now]; simpl in Hstep.
  - case_bool_decide; simplify_eq/=; [|by apply Hex].
    intros Hi Hj. apply Hex.
    + apply lookup_app_Some in Hi as [Hi|[_ Hi]]; [done|].
      by destruct (i - length (updaters s))%nat.
    + apply lookup_app_Some in Hj as [Hj|[_ Hj]]; [done|].
      by destruct (j - length (updaters s))%nat.
  - destruct (updaters s !! k) as [[| |]|] eqn:Hk; try done.
    destruct (held (updaters s)) eqn:Hheld; simplify_eq/=.
    rewrite held_false in Hheld. intros Hi Hj.
    destruct (decide (k = i)) as [Hki|Hki], (decide (k = j)) as [Hkj|Hkj].
    + congruence.
    + rewrite list_lookup_insert_ne in Hj by done. by apply Hheld in Hj.
    + rewrite list_lookup_insert_ne in Hi by done. by apply Hheld in Hi.
    + rewrite list_lookup_insert_ne in Hi by done. by apply Hheld in Hi.
  - destruct (updaters s !! k) as [[| |]|] eqn:Hk; simplify_eq/=.
    assert (k < length (updaters s))%nat as Hlt by (by eapply lookup_lt_Some).
    intros Hi Hj.
    destruct (decide (k = i)) as [->|Hki];
      [by rewrite list_lookup_insert_eq in Hi|].
    destruct (decide (k = j)) as [->|Hkj];
      [by rewrite list_lookup_insert_eq in Hj|].
    rewrite list_lookup_insert_ne in Hi, Hj by done. by apply Hex.
Qed.

Lemma run_exclusive (acts : list action) (s s' : System) :
  exclusive s → run acts s = Some s' → exclusive s'.
Proof.
  revert s. induction acts as [|a acts IH]; intros s Hex Hrun; simpl in Hrun.
  - by simplify_eq.
  - destruct (step a s) as [s1|] eqn:Hstep; [|done].
    eapply IH; [|done]. by eapply step_exclusive.
Qed.

Lemma waiting_gets_lock (s : System) (i : nat) :
  exclusive s → updaters s !! i = Some AtLock →
  ∃ acts s', run acts s = Some s' ∧ updaters s' !! i = Some InCycle.
Proof.
  intros Hex Hi.
  assert (i < length (updaters s))%nat as Hlt by (by eapply lookup_lt_Some).
  destruct (held (updaters s)) eqn:Hheld.
  - apply held_true in Hheld as [j Hj].
    assert (j < length (updaters s))%nat as Hjlt by (by eapply lookup_lt_Some).
    assert (i ≠ j) as Hij by congruence.
    exists [Finish j None 0; Acquire i]. eexists. simpl. rewrite Hj. simpl.
    rewrite list_lookup_insert_ne, Hi by done.
    assert (held (<[j := Exited]> (updaters s)) = false) as ->.
    { apply held_false. intros k Hk.
      destruct (decide (j = k)) as [->|Hjk].
      - by rewrite list_lookup_insert_eq in Hk.
      - rewrite list_lookup_insert_ne in Hk by done.
        by specialize (Hex _ _ Hj Hk). }
    split; [done|]. simpl. apply list_lookup_insert_eq.
    by rewrite length_insert.
  - exists [Acquire i]. eexists. simpl. rewrite Hi, Hheld.
    split; [done|]. simpl. by apply list_lookup_insert_eq.
Qed.

(** C3 (as amended) — In every state the process reaches, at most one
    goroutine is inside the refresh cycle; a scrape that finds the cache
    expired starts one more goroutine, which waits at the lock whether or
    not a cycle is running; and every goroutine waiting at the lock can be
    granted it and run its own cycle. *)
Theorem C3_refresh_lock (ttl : Z) (acts : list action) (s : System) :
  run acts (init ttl) = Some s →
  (∀ i j, updaters s !! i = Some InCycle → updaters s !! j = Some InCycle →
          i = j)
  ∧ (∀ now, (Collect now (exp s)).2 = true →
            step (Scrape now) s
            = Some (mkSystem (exp s) (updaters s ++ [AtLock])))
  ∧ (∀ i, updaters s !! i = Some AtLock →
          ∃ acts' s', run acts' s = Some s'
                      ∧ updaters s' !! i = Some InCycle).
Proof.
  intros Hrun.
  assert (exclusive s) as Hex.
  { eapply run_exclusive; [|exact Hrun]. intros i j Hi. by destruct i. }
  split; [exact Hex|]. split.
  - intros now Hstale. unfold step. by rewrite Hstale.
  - intros i Hi. by apply waiting_gets_lock.
Qed.

Lemma C3_refresh_lock_witness :
  ∃ s, run [Scrape hour; Acquire 0; Scrape (hour + 1)] (init hour) = Some s
       ∧ updaters s = [InCycle; AtLock]
       ∧ ∃ acts' s', run acts' s = Some s'
                     ∧ updaters s' !! 1%nat = Some InCycle.
Proof.
  eexists. split; [vm_compute; reflexivity|]. split; [reflexivity|].
  refine (proj2 (proj2 (C3_refresh_lock hour
                          [Scrape hour; Acquire 0; Scrape (hour + 1)] _ _))
            1%nat _).
  - vm_compute. reflexivity.
  - reflexivity.
Defined.

(** C3 (as stated) fails: a scrape that finds the cache expired while a
    cycle is running does change the state, it adds a goroutine that waits
    for the lock. *)
Lemma C3_request_is_queued :
  ¬ (∀ (ttl : Z) (acts : list action) (s s' : System) (now : Z),
       run acts (init ttl) = Some s → held (updaters s) = true →
       step (Scrape now) s = Some s' → updaters s' = updaters s).
Proof.
  intros Hnoop.
  specialize (Hnoop hour [Scrape hour; Acquire 0]
                (mkSystem (NewRDSExporter hour) [InCycle])
                (mkSystem (NewRDSExporter hour) [InCycle; AtLock])
                (hour + 1)).
  discriminate Hnoop; vm_compute; reflexivity.
Qed.

(** Two scrapes of an expired cache, the second while the first cycle runs:
    the second goroutine runs a cycle of its own once the first returns,
    although the cache was refreshed in between. *)
Example two_scrapes_two_cycles :
  run [Scrape hour; Acquire 0; Scrape (hour + 1);
       Finish 0 (Some [alloc1]) (hour + 2); Acquire 1]
      (init hour)
  = Some (mkSystem (mkExporter [alloc1] hour (hour + 2)) [Exited; InCycle]).
Proof. vm_compute. reflexivity. Qed.


(** ** Label names *)

Lemma tag_name_not_base (tag : string) : "tag_" +:+ tag ∉ baseLabels.
Proof.
  unfold baseLabels. intros Hin.
  repeat (apply elem_of_cons in Hin as [Hin|Hin]; [discriminate Hin|]).
  by apply elem_of_nil in Hin.
Qed.

(** X1 — The label names of the descriptors are the seven base labels, in
    place, followed by one name [tag_<key>] per tag key; when the tag keys
    are pairwise distinct, so are the label names (a tag key named like a
    base label, such as [region], does not clash with it). *)
Theorem dynLabels_distinct (tgs : list string) :
  NoDup tgs →
  NoDup (dynLabels tgs)
  ∧ take (length baseLabels) (dynLabels tgs) = baseLabels
  ∧ drop (length baseLabels) (dynLabels tgs) = String.append "tag_" <$> tgs.
Proof.
  intros Htgs. unfold dynLabels. rewrite createDynLabels_app.
  split; [|split; [by rewrite take_app_length|by rewrite drop_app_length]].
  apply NoDup_app. split; [|split].
  - unfold baseLabels. apply (bool_decide_unpack _). vm_compute. exact I.
  - intros name Hbase (tag & -> & _)%list_elem_of_fmap.
    by apply (tag_name_not_base tag).
  - apply NoDup_fmap; [|done]. intros t1 t2 Heq. by simplify_eq/=.
Qed.

Lemma dynLabels_distinct_witness : NoDup (dynLabels tags).
Proof.
  apply dynLabels_distinct. unfold tags.
  apply (bool_decide_unpack _). vm_compute. exact I.
Defined.

(** ** What the collectors emit *)

Lemma emitted_elem (t : list event) (m : Metric) :
  m ∈ emitted t ↔ EvEmit m ∈ t.
Proof.
  unfold emitted. rewrite list_elem_of_omap. split.
  - intros (ev & Hin & Hev). destruct ev; by simplify_eq.
  - intros Hin. by exists (EvEmit m).
Qed.

Lemma elem_of_concat {A} (x : A) (ls : list (list A)) :
  x ∈ concat ls → ∃ l, x ∈ l ∧ l ∈ ls.
Proof.
  induction ls as [|l ls IH]; simpl; [by intros ?%elem_of_nil|].
  intros [Hin|Hin]%elem_of_app.
  - exists l. split; [done|left].
  - destruct (IH Hin) as (l' & Hx & Hl'). exists l'. split; [done|by right].
Qed.

Lemma bind_trace_elem {A B} (m : Go A) (k : A → Go B) (ev : event) :
  ev ∈ (bind m k).1 → ev ∈ m.1 ∨ ∃ a, m.2 = Done a ∧ ev ∈ (k a).1.
Proof.
  destruct m as [t [a| |]]; simpl; [|by left|by left].
  destruct (k a) as [t' s'] eqn:Hk. simpl.
  intros [Hin|Hin]%elem_of_app; [by left|].
  right. exists a. by rewrite Hk.
Qed.

Lemma forRange_trace_elem {A} (xs : list A) (body : A → Go unit) (ev : event) :
  ev ∈ (forRange xs body).1 → ∃ x, x ∈ xs ∧ ev ∈ (body x).1.
Proof.
  induction xs as [|x xs IH]; simpl; [by intros ?%elem_of_nil|].
  intros [Hin|(_ & _ & Hin)]%bind_trace_elem.
  - exists x. split; [left|done].
  - destruct (IH Hin) as (y & Hy & Hev). exists y. split; [by right|done].
Qed.

Lemma collectPages_emitted tgs fuel aws r marker (m : Metric) :
  m ∈ emitted (trace (collectPages tgs fuel aws r marker)) →
  ∃ i, processed aws r i = true ∧ m ∈ samplesOf tgs (labelsOf tgs aws r i) i.
Proof.
  rewrite emitted_elem. unfold trace. revert marker.
  induction fuel as [|fuel IH]; intros marker;
    [rewrite collectPages_0; by intros ?%elem_of_nil|].
  rewrite collectPages_S.
  destruct (DescribeDBInstances aws r marker) as [output|err].
  - intros [Hin|(_ & _ & Hin)]%bind_trace_elem.
    + apply forRange_trace_elem in Hin as (i & _ & Hin).
      apply emitted_elem in Hin. fold (trace (collectInstance tgs aws r i)) in Hin.
      rewrite emitted_collectInstance in Hin.
      destruct (processed aws r i) eqn:Hp; [by exists i|].
      by apply elem_of_nil in Hin.
    + destruct (Marker output); [by eapply IH|].
      by apply elem_of_nil in Hin.
  - intros Hin. apply list_elem_of_singleton in Hin. discriminate Hin.
Qed.

Lemma samplesOf_described tgs labels i m :
  m ∈ samplesOf tgs labels i →
  desc m ∈ Describe tgs ∧ valueType m = GaugeValue ∧ labelValues m = labels.
Proof.
  unfold samplesOf, sample, Describe. intros Hm.
  repeat (apply elem_of_app in Hm as [Hm|Hm]);
    repeat match goal with
           | H : _ ∈ match ?f with _ => _ end |- _ => destruct f
           end;
    repeat match goal with
           | H : _ ∈ [] |- _ => by apply elem_of_nil in H
           | H : _ ∈ [_] |- _ => apply list_elem_of_singleton in H as ->
           end; simpl; (split; [|done]).
  - apply list_elem_of_here.
  - apply list_elem_of_further, list_elem_of_here.
  - do 2 apply list_elem_of_further. apply list_elem_of_here.
  - do 3 apply list_elem_of_further. apply list_elem_of_here.
Qed.

Lemma described_labels tgs d :
  d ∈ Describe tgs → variableLabels d = dynLabels tgs.
Proof.
  unfold Describe. intros Hd.
  repeat (apply elem_of_cons in Hd as [->|Hd]; [done|]).
  by apply elem_of_nil in Hd.
Qed.

Lemma updateCache_inv tgs sched fuel now aws p p' :
  updateCache tgs sched fuel now aws p = Returned p' →
  (∃ err, ListRegions aws = Err err
          ∧ p' = mkProcess (exporter p)
                           (logs p ++ ["Error listing regions: " +:+ err]))
  ∨ (∃ regions names,
       ListRegions aws = Ok regions
       ∧ mapM RegionName regions = Some names
       ∧ let evs := interleave sched
                      (trace <$> (collectRegionMetrics tgs fuel aws <$> names)) in
         p' = mkProcess (mkExporter (emitted evs) (cacheTTL (exporter p)) now)
                        (logs p ++ logged evs)).
Proof.
  unfold updateCache, spawn.
  destruct (ListRegions aws) as [regions|err].
  - destruct (mapM RegionName regions) as [names|] eqn:Hnames; simpl; [|done].
    destruct (existsb isRunning _); [done|].
    destruct (existsb isPanic _); [done|].
    intros [= <-]. right. exists regions, names.
    split; [done|]. split; [done|]. simpl.
    unfold swap. by rewrite foldl_perform.
  - intros [= <-]. left. by exists err.
Qed.

(** X2 — After a cycle that enumerated the regions and returned, every
    sample in the cache is a gauge under one of the four descriptors
    [Describe] announces, carries as many label values as that descriptor
    has label names, and its region label is the name of one of the
    enumerated regions. *)
Theorem cache_matches_Describe (tgs : list string) (sched : list nat)
    (fuel : nat) (now : Z) (aws : Provider) (p p' : Process)
    (regions : list Region) (m : Metric) :
  ListRegions aws = Ok regions →
  updateCache tgs sched fuel now aws p = Returned p' →
  m ∈ cache (exporter p') →
  desc m ∈ Describe tgs
  ∧ valueType m = GaugeValue
  ∧ length (labelValues m) = length (variableLabels (desc m))
  ∧ ∃ r, mkRegion (Some r) ∈ regions ∧ labelValues m !! 4%nat = Some r.
Proof.
  intros Hregions [(err & Herr & _)|(regions' & names & Hok & Hnames & Hp')]
    %updateCache_inv Hm; [congruence|].
  assert (regions' = regions) as -> by congruence.
  simpl in Hp'. subst p'. simpl in Hm.
  rewrite (emitted_perm _ _ (interleave_perm _ _)), emitted_concat in Hm.
  apply elem_of_concat in Hm as (ms & Hm & Hms).
  rewrite <- !list_fmap_compose in Hms.
  apply list_elem_of_fmap in Hms as (r & -> & Hr). simpl in Hm.
  apply collectPages_emitted in Hm as (i & Hp & Hm).
  apply samplesOf_described in Hm as (Hd & Hv & Hl).
  split; [done|]. split; [done|]. split.
  - by rewrite Hl, (described_labels tgs _ Hd), length_labelsOf,
      length_dynLabels.
  - exists r. split; [|by rewrite Hl].
    apply mapM_Some in Hnames.
    apply list_elem_of_lookup in Hr as [k Hk].
    destruct (Forall2_lookup_r _ _ _ _ _ Hnames Hk) as ([[r'|]] & Hreg & Hname);
      simplify_eq/=.
    by eapply list_elem_of_lookup_2.
Qed.

Lemma cache_matches_Describe_witness :
  desc alloc1 ∈ Describe tags
  ∧ valueType alloc1 = GaugeValue
  ∧ length (labelValues alloc1) = length (variableLabels (desc alloc1))
  ∧ ∃ r, mkRegion (Some r) ∈ [mkRegion (Some "us-east-1")]
         ∧ labelValues alloc1 !! 4%nat = Some r.
Proof.
  apply (cache_matches_Describe tags [] 1 99 aws1 served
           (mkProcess (mkExporter [alloc1; iops1] hour 99) [])
           [mkRegion (Some "us-east-1")] alloc1).
  - reflexivity.
  - vm_compute. reflexivity.
  - simpl. apply list_elem_of_here.
Defined.

(** ** Scrapes and the age of the cache *)

(** X3 — The first scrape of a new exporter is sent no sample and starts a
    refresh, whatever the TTL: the time since the zero instant saturates at
    the largest duration, which no TTL exceeds. *)
Theorem first_scrape_starts_refresh (ttl now : Z) :
  ttl ≤ maxDuration → maxDuration ≤ now →
  Collect now (NewRDSExporter ttl) = ([], true).
Proof.
  intros Httl Hnow. unfold Collect, NewRDSExporter, Since. simpl.
  rewrite bool_decide_eq_true_2; [done|].
  unfold minDuration, maxDuration in *. lia.
Qed.

Lemma first_scrape_starts_refresh_witness :
  Collect (2 ^ 64) (NewRDSExporter hour) = ([], true).
Proof.
  apply first_scrape_starts_refresh; unfold hour, maxDuration; lia.
Defined.

(** X4 — After a cycle that enumerated the regions and returned at instant
    [now], a scrape at a later instant is sent the installed cache, and it
    starts the next refresh exactly when the TTL has elapsed since [now]. *)
Theorem scrape_after_refresh (tgs : list string) (sched : list nat)
    (fuel : nat) (now now' : Z) (aws : Provider) (p p' : Process)
    (regions : list Region) :
  ListRegions aws = Ok regions →
  updateCache tgs sched fuel now aws p = Returned p' →
  now ≤ now' → cacheTTL (exporter p) ≤ maxDuration →
  Collect now' (exporter p')
  = (cache (exporter p'),
     bool_decide (cacheTTL (exporter p) ≤ now' - now)).
Proof.
  intros Hregions [(err & Herr & _)|(regions' & names & _ & _ & Hp')]
    %updateCache_inv Hnow Httl; [congruence|].
  simpl in Hp'. subst p'. unfold Collect, Since. simpl. f_equal.
  apply bool_decide_ext. unfold minDuration, maxDuration in *. lia.
Qed.

Lemma scrape_after_refresh_witness :
  Collect (99 + hour - 1) (mkExporter [alloc1; iops1] hour 99)
  = ([alloc1; iops1], false)
  ∧ Collect (99 + hour) (mkExporter [alloc1; iops1] hour 99)
    = ([alloc1; iops1], true).
Proof.
  assert (updateCache tags [] 1 99 aws1 served
          = Returned (mkProcess (mkExporter [alloc1; iops1] hour 99) []))
    as Hrun by (vm_compute; reflexivity).
  assert (cacheTTL (exporter served) ≤ maxDuration) as Httl
    by (vm_compute; discriminate).
  split.
  - etransitivity.
    { apply (scrape_after_refresh tags [] 1 99 (99 + hour - 1) aws1 served
               (mkProcess (mkExporter [alloc1; iops1] hour 99) []) _
               eq_refl Hrun); [unfold hour; lia|exact Httl]. }
    vm_compute. reflexivity.
  - etransitivity.
    { apply (scrape_after_refresh tags [] 1 99 (99 + hour) aws1 served
               (mkProcess (mkExporter [alloc1; iops1] hour 99) []) _
               eq_refl Hrun); [unfold hour; lia|exact Httl]. }
    vm_compute. reflexivity.
Defined.

(** X5 — With a TTL that is zero or negative, every scrape at or after the
    last update starts a refresh. *)
Theorem nonpositive_ttl_always_expired (now : Z) (e : RDSExporter) :
  cacheTTL e ≤ 0 → lastUpdate e ≤ now → (Collect now e).2 = true.
Proof.
  intros Httl Hnow. unfold Collect, Since. simpl.
  apply bool_decide_eq_true_2. unfold minDuration, maxDuration. lia.
Qed.

Lemma nonpositive_ttl_always_expired_witness :
  (Collect 99 (mkExporter [alloc1] 0 99)).2 = true.
Proof. apply nonpositive_ttl_always_expired; simpl; lia. Defined.

(** ** What a cycle leaves alone, and when it does not return *)

(** X6 — However a cycle returns, it leaves the TTL as it was, it only adds
    lines at the end of the log, and the last-update instant is either what
    it was (enumeration failed) or the instant of the swap. *)
Theorem updateCache_preserves (tgs : list string) (sched : list nat)
    (fuel : nat) (now : Z) (aws : Provider) (p p' : Process) :
  updateCache tgs sched fuel now aws p = Returned p' →
  cacheTTL (exporter p') = cacheTTL (exporter p)
  ∧ logs p `prefix_of` logs p'
  ∧ (exporter p' = exporter p ∨ lastUpdate (exporter p') = now).
Proof.
  intros [(err & _ & ->)|(regions & names & _ & _ & Hp')]%updateCache_inv.
  - simpl. split; [done|]. split; [by eexists|by left].
  - simpl in Hp'. subst p'. simpl.
    split; [done|]. split; [by eexists|by right].
Qed.

Lemma updateCache_preserves_witness :
  ∃ p', updateCache tags [1%nat; 0%nat; 1%nat] 2 99 aws2 served = Returned p'
        ∧ cacheTTL (exporter p') = hour
        ∧ lastUpdate (exporter p') = 99.
Proof.
  eexists. split; [vm_compute; reflexivity|].
  assert (updateCache tags [1%nat; 0%nat; 1%nat] 2 99 aws2 served
          = Returned (mkProcess
                        (mkExporter
                           (emitted (interleave [1%nat; 0%nat; 1%nat]
                              (trace <$> (collectRegionMetrics tags 2 aws2
                                          <$> ["eu-west-1"; "us-east-1"]))))
                           hour 99)
                        ["Couldn't list RDS instances in region eu-west-1 : Throttling"]))
    as Hrun by (vm_compute; reflexivity).
  destruct (updateCache_preserves _ _ _ _ _ _ _ Hrun) as (Httl & _ & _).
  split; [exact Httl|reflexivity].
Defined.

Lemma existsb_perm {A} (f : A → bool) (l1 l2 : list A) :
  l1 ≡ₚ l2 → existsb f l1 = existsb f l2.
Proof.
  induction 1 as [|x l1 l2 _ IH|x y l|l1 l2 l3 _ IH1 _ IH2]; simpl.
  - done.
  - by rewrite IH.
  - by destruct (f x), (f y).
  - by rewrite IH1.
Qed.

Lemma logged_perm (t1 t2 : list event) : t1 ≡ₚ t2 → logged t1 ≡ₚ logged t2.
Proof. unfold logged. by intros ->. Qed.

(** X7 — The order in which the collectors take their steps changes
    neither whether a cycle returns nor what it leaves behind, up to order:
    under any other schedule the cycle returns too, with the same
    last-update instant and TTL, the same samples in the cache and the same
    lines in the log, each as often. *)
Theorem schedule_only_reorders (tgs : list string) (sched1 sched2 : list nat)
    (fuel : nat) (now : Z) (aws : Provider) (p p1 : Process) :
  updateCache tgs sched1 fuel now aws p = Returned p1 →
  ∃ p2, updateCache tgs sched2 fuel now aws p = Returned p2
        ∧ cache (exporter p1) ≡ₚ cache (exporter p2)
        ∧ logs p1 ≡ₚ logs p2
        ∧ lastUpdate (exporter p1) = lastUpdate (exporter p2)
        ∧ cacheTTL (exporter p1) = cacheTTL (exporter p2).
Proof.
  unfold updateCache.
  destruct (ListRegions aws) as [regions|err]; [|intros [= <-]; by eexists].
  destruct (spawn tgs fuel aws regions) as [workers|]; [|done].
  destruct (existsb isRunning workers); [done|].
  destruct (existsb isPanic (interleave sched1 (trace <$> workers))) eqn:Hquiet;
    [done|].
  intros [= <-].
  assert (interleave sched1 (trace <$> workers)
          ≡ₚ interleave sched2 (trace <$> workers)) as Hperm
    by (by rewrite !interleave_perm).
  rewrite <- (existsb_perm isPanic _ _ Hperm), Hquiet.
  eexists. split; [done|]. unfold swap. rewrite !foldl_perform. simpl.
  split; [by apply emitted_perm|]. split; [|done].
  by rewrite (logged_perm _ _ Hperm).
Qed.

Lemma schedule_only_reorders_witness :
  ∃ p2, updateCache tags [0%nat; 0%nat] 2 99 aws2 served = Returned p2
        ∧ lastUpdate (exporter p2) = 99.
Proof.
  assert (∃ p1, updateCache tags [1%nat; 0%nat; 1%nat] 2 99 aws2 served
                = Returned p1 ∧ lastUpdate (exporter p1) = 99)
    as (p1 & Hrun & Hlast) by (eexists; split; vm_compute; reflexivity).
  destruct (schedule_only_reorders tags [1%nat; 0%nat; 1%nat]
              [0%nat; 0%nat] 2 99 aws2 served p1 Hrun)
    as (p2 & Hrun2 & _ & _ & Heq & _).
  exists p2. split; [exact Hrun2|]. by rewrite <- Heq.
Defined.

(** X8 — A region that comes without a name makes the cycle panic where it
    starts the collectors: nothing is installed. *)
Theorem nameless_region_crashes (tgs : list string) (sched : list nat)
    (fuel : nat) (now : Z) (aws : Provider) (p : Process)
    (regions : list Region) :
  ListRegions aws = Ok regions →
  mkRegion None ∈ regions →
  updateCache tgs sched fuel now aws p = Crashed.
Proof.
  intros Hregions Hin. unfold updateCache, spawn. rewrite Hregions.
  assert (mapM RegionName regions = None) as ->; [|done].
  apply mapM_None, Exists_exists. by exists (mkRegion None).
Qed.

Lemma nameless_region_crashes_witness :
  updateCache tags [] 1 99 awsNamelessRegion served = Crashed.
Proof.
  apply (nameless_region_crashes tags [] 1 99 awsNamelessRegion served
           [mkRegion (Some "us-east-1"); mkRegion None] eq_refl).
  apply list_elem_of_further, list_elem_of_here.
Defined.

Lemma elem_of_concat_2 {A} (x : A) (l : list A) (ls : list (list A)) :
  x ∈ l → l ∈ ls → x ∈ concat ls.
Proof.
  intros Hx. induction 1; simpl; apply elem_of_app; auto.
Qed.

Lemma loud_bind {A B} (m : Go A) (k : A → Go B) :
  loud m → (∀ a, loud (k a)) → loud (bind m k).
Proof.
  unfold loud. destruct m as [t [a| |]]; simpl; intros Hm Hk; [|auto|done].
  specialize (Hk a). destruct (k a) as [t' s']. simpl in *.
  intros Hs. apply elem_of_app. right. by apply Hk.
Qed.

Lemma loud_collectInstance tgs aws r i : loud (collectInstance tgs aws r i).
Proof.
  unfold loud. destruct (processed aws r i) eqn:Hp.
  - by rewrite collectInstance_processed.
  - rewrite collectInstance_panics by done. intros _. apply list_elem_of_here.
Qed.

Lemma loud_forRange {A} (xs : list A) (body : A → Go unit) :
  (∀ x, loud (body x)) → loud (forRange xs body).
Proof.
  intros Hbody. induction xs as [|x xs IH]; simpl; [done|].
  apply loud_bind; [apply Hbody|by intros _].
Qed.

Lemma loud_collectPages tgs fuel aws r marker :
  loud (collectPages tgs fuel aws r marker).
Proof.
  revert marker. induction fuel as [|fuel IH]; intros marker; [done|].
  rewrite collectPages_S.
  destruct (DescribeDBInstances aws r marker) as [output|err]; [|done].
  apply loud_bind; [apply loud_forRange, loud_collectInstance|].
  intros _. destruct (Marker output); [apply IH|done].
Qed.

Lemma forRange_panics tgs aws r (insts : list DBInstance) :
  Exists (λ i, processed aws r i = false) insts →
  (forRange insts (collectInstance tgs aws r)).2 = Panicked.
Proof.
  induction insts as [|i insts IH]; intros Hex; [by apply Exists_nil in Hex|].
  simpl. destruct (processed aws r i) eqn:Hp.
  - rewrite collectInstance_processed, bind_done by done. simpl.
    apply IH. apply Exists_cons in Hex as [Hex|Hex]; [congruence|done].
  - by rewrite collectInstance_panics.
Qed.

Lemma panicked_worker_crashes tgs sched fuel now aws p regions names r :
  ListRegions aws = Ok regions →
  mapM RegionName regions = Some names →
  r ∈ names →
  (collectRegionMetrics tgs fuel aws r).2 = Panicked →
  updateCache tgs sched fuel now aws p
  = if existsb isRunning (collectRegionMetrics tgs fuel aws <$> names)
    then OutOfFuel else Crashed.
Proof.
  intros Hregions Hnames Hr Hpanic. unfold updateCache.
  rewrite Hregions, (spawn_names tgs fuel aws regions names Hnames).
  destruct (existsb isRunning _); [done|].
  assert (existsb isPanic
            (interleave sched
               (trace <$> (collectRegionMetrics tgs fuel aws <$> names)))
          = true) as ->; [|done].
  rewrite (existsb_perm _ _ _ (interleave_perm _ _)).
  apply existsb_exists. exists EvPanic. split; [|done].
  apply list_elem_of_In.
  apply (elem_of_concat_2 _ (trace (collectRegionMetrics tgs fuel aws r))).
  - by apply loud_collectPages.
  - rewrite <- list_fmap_compose. apply list_elem_of_fmap. by exists r.
Qed.

Lemma running_worker_out_of_fuel tgs sched fuel now aws p regions names r :
  ListRegions aws = Ok regions →
  mapM RegionName regions = Some names →
  r ∈ names →
  (collectRegionMetrics tgs fuel aws r).2 = Running →
  existsb isRunning (collectRegionMetrics tgs fuel aws <$> names) = true
  ∧ updateCache tgs sched fuel now aws p = OutOfFuel.
Proof.
  intros Hregions Hnames Hr Hrunning.
  assert (existsb isRunning (collectRegionMetrics tgs fuel aws <$> names)
          = true) as Hex.
  { apply existsb_exists. exists (collectRegionMetrics tgs fuel aws r).
    split; [apply list_elem_of_In, list_elem_of_fmap; by exists r|].
    unfold isRunning. by rewrite Hrunning. }
  split; [exact Hex|]. unfold updateCache.
  rewrite Hregions, (spawn_names tgs fuel aws regions names Hnames).
  cbv beta iota. by rewrite Hex.
Qed.

(** X9 — An instance on a region's first page that lacks an attribute the
    collector dereferences makes the whole cycle panic: whatever the other
    regions return and however the collectors are scheduled, the cycle does
    not return and installs nothing. *)
Theorem unprocessed_instance_no_swap (tgs : list string) (sched : list nat)
    (fuel : nat) (now : Z) (aws : Provider) (p : Process)
    (regions : list Region) (names : list string) (r : string)
    (output : DescribeDBInstancesOutput) (i : DBInstance) :
  ListRegions aws = Ok regions →
  mapM RegionName regions = Some names →
  r ∈ names →
  DescribeDBInstances aws r None = Ok output →
  i ∈ DBInstances output →
  processed aws r i = false →
  (∀ p', updateCache tgs sched fuel now aws p ≠ Returned p')
  ∧ (existsb isRunning (collectRegionMetrics tgs fuel aws <$> names) = false →
     updateCache tgs sched fuel now aws p = Crashed).
Proof.
  intros Hregions Hnames Hr Hpage Hi Hp.
  destruct fuel as [|fuel].
  - destruct (running_worker_out_of_fuel tgs sched 0 now aws p regions names
                r Hregions Hnames Hr eq_refl) as [Hex ->].
    split; [done|]. by rewrite Hex.
  - assert ((collectRegionMetrics tgs (S fuel) aws r).2 = Panicked) as Hpanic.
    { unfold collectRegionMetrics. rewrite collectPages_S, Hpage.
      pose proof (forRange_panics tgs aws r (DBInstances output)) as Hfor.
      destruct (forRange (DBInstances output) (collectInstance tgs aws r))
        as [t st]. simpl in *. rewrite Hfor; [done|].
      apply Exists_exists. by exists i. }
    rewrite (panicked_worker_crashes tgs sched (S fuel) now aws p regions
               names r Hregions Hnames Hr Hpanic).
    split; [by destruct (existsb isRunning _)|by intros ->].
Qed.

Lemma unprocessed_instance_no_swap_witness :
  updateCache tags [] 1 99 awsNoZone served = Crashed.
Proof.
  apply (unprocessed_instance_no_swap tags [] 1 99 awsNoZone served
           [mkRegion (Some "us-east-1")] ["us-east-1"] "us-east-1"
           (mkOutput [db1; dbNoZone] None) dbNoZone eq_refl eq_refl).
  - apply list_elem_of_here.
  - reflexivity.
  - apply list_elem_of_further, list_elem_of_here.
  - reflexivity.
  - reflexivity.
Defined.

Lemma collectPages_endless tgs aws r :
  (∀ marker, ∃ output next,
      DescribeDBInstances aws r marker = Ok output
      ∧ Marker output = Some next
      ∧ Forall (λ i, processed aws r i = true) (DBInstances output)) →
  ∀ fuel marker, (collectPages tgs fuel aws r marker).2 = Running.
Proof.
  intros Hmore. induction fuel as [|fuel IH]; intros marker; [done|].
  rewrite collectPages_S.
  destruct (Hmore marker) as (output & next & -> & Hnext & Hall).
  rewrite (forRange_processed tgs aws r _ Hall), bind_done, Hnext.
  cbn [snd]. apply IH.
Qed.

(** X10 — The pagination loop has no bound of its own: against a region
    that answers every listing call with a page and a marker, the collector
    is still paginating after any number of calls, and the cycle it belongs
    to never gets to the swap. *)
Theorem endless_markers_never_return (tgs : list string) (sched : list nat)
    (now : Z) (aws : Provider) (p : Process) (regions : list Region)
    (names : list string) (r : string) :
  ListRegions aws = Ok regions →
  mapM RegionName regions = Some names →
  r ∈ names →
  (∀ marker, ∃ output next,
      DescribeDBInstances aws r marker = Ok output
      ∧ Marker output = Some next
      ∧ Forall (λ i, processed aws r i = true) (DBInstances output)) →
  ∀ fuel, (collectRegionMetrics tgs fuel aws r).2 = Running
          ∧ updateCache tgs sched fuel now aws p = OutOfFuel.
Proof.
  intros Hregions Hnames Hr Hmore fuel.
  pose proof (collectPages_endless tgs aws r Hmore fuel None) as Hrunning.
  split; [exact Hrunning|].
  by apply (running_worker_out_of_fuel tgs sched fuel now aws p regions names r).
Qed.

Lemma endless_markers_never_return_witness :
  updateCache tags [] 1000 99 awsEndless served = OutOfFuel.
Proof.
  apply (endless_markers_never_return tags [] 99 awsEndless served
           [mkRegion (Some "us-east-1")] ["us-east-1"] "us-east-1"
           eq_refl eq_refl).
  - apply list_elem_of_here.
  - intros marker. exists (mkOutput [db1] (Some "more")), "more".
    split; [reflexivity|]. split; [reflexivity|]. by repeat constructor.
Defined.

(** ** The tag map *)

Lemma dom_emptyTagMap (tgs : list string) :
  dom (emptyTagMap tgs) = list_to_set tgs.
Proof.
  unfold emptyTagMap.
  assert (∀ (m : gmap string string),
            dom (foldl (λ tagMap tag, <[tag := ""]> tagMap) m tgs)
            = list_to_set tgs ∪ dom m) as Hgen.
  { induction tgs as [|tag tgs IH]; intros m; simpl;
      [by rewrite (left_id_L ∅ (∪))|].
    rewrite IH, dom_insert_L, (assoc_L (∪)).
    by rewrite (comm_L (∪) (list_to_set tgs)). }
  by rewrite Hgen, dom_empty_L, (right_id_L ∅ (∪)).
Qed.

Lemma dom_fillTagMap (tgs : list string) (tagList : list Tag)
    (m : gmap string string) :
  list_to_set tgs ⊆ dom m → dom (fillTagMap tgs tagList m) = dom m.
Proof.
  unfold fillTagMap. revert m.
  induction tagList as [|tag tagList IH]; intros m Hsub; simpl; [done|].
  destruct tag as [[k|] [v|]]; simpl; try by apply IH.
  case_bool_decide as Hk; [|by apply IH].
  assert (dom (<[k := v]> m) = dom m) as Hdom.
  { rewrite dom_insert_L.
    apply subseteq_union_1_L, singleton_subseteq_l, Hsub.
    by apply elem_of_list_to_set. }
  rewrite IH; [done|]. by rewrite Hdom.
Qed.

(** X11 — Whatever tags an instance carries, the tag map built for it has
    the configured keys for its keys and no other: a tag under any other
    key is not stored. *)
Theorem tagMap_keys_are_configured (tgs : list string) (tagList : list Tag) :
  dom (fillTagMap tgs tagList (emptyTagMap tgs)) = list_to_set tgs.
Proof.
  rewrite dom_fillTagMap; [apply dom_emptyTagMap|].
  by rewrite dom_emptyTagMap.
Qed.

(** ** Goroutines at the refresh lock *)

(** X12 — When the goroutine inside the cycle returns, with or without a
    swap, the refresh lock is free again: no goroutine is inside the cycle,
    and any goroutine waiting at the lock can be granted it at once. *)
Theorem finish_frees_lock (ttl : Z) (acts : list action) (s s' : System)
    (i : nat) (installed : option (list Metric)) (now : Z) :
  run acts (init ttl) = Some s →
  step (Finish i installed now) s = Some s' →
  held (updaters s') = false
  ∧ ∀ k, updaters s !! k = Some AtLock →
         ∃ s'', step (Acquire k) s' = Some s''
                ∧ updaters s'' !! k = Some InCycle.
Proof.
  intros Hrun Hstep.
  assert (exclusive s) as Hex.
  { eapply run_exclusive; [|exact Hrun]. intros a b Ha. by destruct a. }
  simpl in Hstep.
  destruct (updaters s !! i) as [[| |]|] eqn:Hi; simplify_eq/=.
  assert (i < length (updaters s))%nat as Hlt by (by eapply lookup_lt_Some).
  assert (held (<[i := Exited]> (updaters s)) = false) as Hfree.
  { apply held_false. intros k Hk.
    destruct (decide (i = k)) as [->|Hik].
    - by rewrite list_lookup_insert_eq in Hk.
    - rewrite list_lookup_insert_ne in Hk by done.
      by specialize (Hex _ _ Hi Hk). }
  split; [exact Hfree|].
  intros k Hk. assert (i ≠ k) as Hik by congruence.
  rewrite list_lookup_insert_ne, Hk, Hfree by done.
  eexists. split; [done|]. simpl.
  apply list_lookup_insert_eq. rewrite length_insert.
  by eapply lookup_lt_Some.
Qed.

Lemma finish_frees_lock_witness :
  ∃ s'', step (Acquire 1)
              (mkSystem (NewRDSExporter hour) [Exited; AtLock]) = Some s''
         ∧ updaters s'' !! 1%nat = Some InCycle.
Proof.
  refine (proj2 (finish_frees_lock hour
                   [Scrape hour; Acquire 0; Scrape (hour + 1)]
                   (mkSystem (NewRDSExporter hour) [InCycle; AtLock])
                   (mkSystem (NewRDSExporter hour) [Exited; AtLock])
                   0 None 0 _ _) 1%nat _).
  - vm_compute. reflexivity.
  - reflexivity.
  - reflexivity.
Defined.

(** X13 — Scrapes do not look at the refresh lock: each scrape that finds
    the cache expired starts one more goroutine, so [n] such scrapes leave
    [n] more goroutines waiting at the lock, and the exporter as it was. *)
Theorem stale_scrapes_pile_up (s : System) (times : list Z) :
  Forall (λ now, (Collect now (exp s)).2 = true) times →
  run (Scrape <$> times) s
  = Some (mkSystem (exp s) (updaters s ++ replicate (length times) AtLock)).
Proof.
  revert s. induction times as [|now times IH]; intros [e us] Hstale.
  - simpl. by rewrite app_nil_r.
  - apply Forall_cons in Hstale as [Hnow Hstale]. cbn [exp updaters] in *.
    rewrite fmap_cons. cbn [run step exp updaters]. rewrite Hnow.
    rewrite (IH (mkSystem e (us ++ [AtLock])) Hstale). simpl.
    by rewrite <- app_assoc.
Qed.

Lemma stale_scrapes_pile_up_witness :
  run (Scrape <$> [hour + 1; hour + 2; hour + 3])
      (mkSystem (NewRDSExporter hour) [InCycle])
  = Some (mkSystem (NewRDSExporter hour) [InCycle; AtLock; AtLock; AtLock]).
Proof.
  apply (stale_scrapes_pile_up (mkSystem (NewRDSExporter hour) [InCycle])).
  repeat constructor.
Defined.

(** ** Strings: slices and prefixes *)

Lemma append_cons (c : ascii) (a b : string) :
  String c a +:+ b = String c (a +:+ b).
Proof. reflexivity. Qed.

Lemma append_nil_r (s : string) : s +:+ "" = s.
Proof.
  induction s as [|c s IH]; [done|]. by rewrite append_cons, IH.
Qed.

Lemma append_assoc (a b c : string) : (a +:+ b) +:+ c = a +:+ b +:+ c.
Proof.
  induction a as [|d a IH]; [done|]. by rewrite !append_cons, IH.
Qed.

Lemma length_append (a b : string) :
  String.length (a +:+ b) = (String.length a + String.length b)%nat.
Proof.
  induction a as [|c a IH]; [done|]. rewrite append_cons. simpl.
  by rewrite IH.
Qed.

Lemma substring_0_0 (s : string) : String.substring 0 0 s = "".
Proof. by destruct s. Qed.

Lemma substring_full (s : string) :
  String.substring 0 (String.length s) s = s.
Proof. induction s as [|c s IH]; simpl; [done|]. by rewrite IH. Qed.

Lemma substring_0_append (a b : string) :
  String.substring 0 (String.length a) (a +:+ b) = a.
Proof.
  induction a as [|c a IH]; [apply substring_0_0|].
  rewrite append_cons. simpl. by rewrite IH.
Qed.

Lemma substring_skip_append (a b : string) (n : nat) :
  String.substring (String.length a) n (a +:+ b) = String.substring 0 n b.
Proof.
  induction a as [|c a IH]; [done|]. rewrite append_cons. simpl. exact IH.
Qed.

Lemma substring_split (s : string) (n : nat) :
  (n ≤ String.length s)%nat →
  s = String.substring 0 n s
      +:+ String.substring n (String.length s - n) s.
Proof.
  revert n. induction s as [|c s IH]; intros [|n] Hn; simpl in *;
    try lia; try done.
  - by rewrite substring_full.
  - rewrite append_cons. f_equal. apply IH. lia.
Qed.

Lemma HasPrefix_true (s prefix : string) :
  Utils.HasPrefix s prefix = true ↔ ∃ rest, s = prefix +:+ rest.
Proof.
  unfold Utils.HasPrefix, Utils.sliceTo.
  rewrite andb_true_iff, !bool_decide_eq_true. split.
  - intros [Hlen Hpre].
    exists (String.substring (String.length prefix)
              (String.length s - String.length prefix) s).
    rewrite <- Hpre at 1. by apply substring_split.
  - intros [rest ->]. split.
    + rewrite length_append. lia.
    + apply substring_0_append.
Qed.

Lemma HasPrefix_false (s prefix : string) :
  Utils.HasPrefix s prefix = false ↔ ∀ rest, s ≠ prefix +:+ rest.
Proof.
  rewrite <- not_true_iff_false, HasPrefix_true. split.
  - intros Hno rest Heq. apply Hno. by exists rest.
  - intros Hno [rest Heq]. by apply (Hno rest).
Qed.

Lemma TrimPrefix_append (prefix rest : string) :
  Utils.TrimPrefix (prefix +:+ rest) prefix = rest.
Proof.
  unfold Utils.TrimPrefix.
  rewrite (proj2 (HasPrefix_true _ _)) by (by exists rest).
  unfold Utils.sliceFrom. rewrite substring_skip_append, length_append.
  replace (String.length prefix + String.length rest - String.length prefix)%nat
    with (String.length rest) by lia.
  apply substring_full.
Qed.

(** ** Membership helpers *)

Lemma Contains_true (l : list string) (s : string) :
  Utils.Contains l s = true ↔ s ∈ l.
Proof.
  induction l as [|a l IH]; simpl.
  - split; [done|by intros ?%elem_of_nil].
  - case_bool_decide as Ha.
    + subst. split; [intros _; left|done].
    + rewrite IH, elem_of_cons.
      split; [by right|]. by intros [->|Hin].
Qed.

(** X14 — [Intersects a b] holds exactly when some string is an element of
    both lists; it is false when either list is empty and does not depend
    on the order of its arguments. *)
Theorem Intersects_common_element (a b : list string) :
  (Utils.Intersects a b = true ↔ ∃ x, x ∈ a ∧ x ∈ b)
  ∧ Utils.Intersects a b = Utils.Intersects b a
  ∧ Utils.Intersects a [] = false
  ∧ Utils.Intersects [] b = false.
Proof.
  assert (∀ a b, Utils.Intersects a b = true ↔ ∃ x, x ∈ a ∧ x ∈ b) as Hspec.
  { clear. intros a b. induction a as [|v a IH]; simpl.
    - split; [done|]. by intros (x & ?%elem_of_nil & _).
    - destruct (Utils.Contains b v) eqn:Hv.
      + apply Contains_true in Hv. split; [|done].
        intros _. exists v. split; [left|done].
      + rewrite IH. split.
        * intros (x & Hx & Hb). exists x. split; [by right|done].
        * intros (x & [->|Hx]%elem_of_cons & Hb).
          -- apply Contains_true in Hb. congruence.
          -- by exists x. }
  split; [apply Hspec|]. split; [|split].
  - apply eq_true_iff_eq. rewrite !Hspec.
    split; intros (x & Hx1 & Hx2); by exists x.
  - apply not_true_iff_false. rewrite Hspec.
    by intros (x & _ & ?%elem_of_nil).
  - done.
Qed.

(** ** Prefixes *)

Lemma ContainsPrefix_first (name : string) (prefixes : list string) :
  match Utils.ContainsPrefix name prefixes with
  | (prefix, true) =>
      ∃ k, prefixes !! k = Some prefix
           ∧ Utils.HasPrefix name prefix = true
           ∧ ∀ j other, (j < k)%nat → prefixes !! j = Some other →
                        Utils.HasPrefix name other = false
  | (prefix, false) =>
      prefix = "" ∧ Forall (λ other, Utils.HasPrefix name other = false) prefixes
  end.
Proof.
  induction prefixes as [|prefix prefixes IH]; simpl; [by split|].
  destruct (Utils.HasPrefix name prefix) eqn:Hpre.
  - exists 0%nat. split; [done|]. split; [done|]. intros j other Hj. lia.
  - destruct (Utils.ContainsPrefix name prefixes) as [found [|]].
    + destruct IH as (k & Hk & Hfound & Hfirst). exists (S k).
      split; [done|]. split; [done|].
      intros [|j] other Hj Hother; simplify_eq/=; [done|].
      eapply Hfirst; [|done]. lia.
    + destruct IH as [-> Hall]. split; [done|]. by constructor.
Qed.

(** X15 — [ContainsAndTrimPrefix] cuts off the first prefix of the list, in
    list order, that the name starts with: the name is that prefix followed
    by the result, and no earlier entry of the list is a prefix of the name.
    When the name starts with none of them it comes back unchanged, with
    [false]. *)
Theorem ContainsAndTrimPrefix_first_match (name : string)
    (prefixes : list string) :
  match Utils.ContainsAndTrimPrefix name prefixes with
  | (rest, true) =>
      ∃ k prefix, prefixes !! k = Some prefix
                  ∧ name = prefix +:+ rest
                  ∧ ∀ j other, (j < k)%nat → prefixes !! j = Some other →
                               ∀ r, name ≠ other +:+ r
  | (rest, false) =>
      rest = name
      ∧ ∀ other, other ∈ prefixes → ∀ r, name ≠ other +:+ r
  end.
Proof.
  unfold Utils.ContainsAndTrimPrefix.
  pose proof (ContainsPrefix_first name prefixes) as Hfirst.
  destruct (Utils.ContainsPrefix name prefixes) as [prefix [|]].
  - destruct Hfirst as (k & Hk & Hpre & Hearlier).
    exists k, prefix. split; [done|].
    apply HasPrefix_true in Hpre as [rest ->].
    split; [by rewrite TrimPrefix_append|].
    intros j other Hj Hother. by apply HasPrefix_false, (Hearlier j).
  - destruct Hfirst as [_ Hall]. split; [done|].
    intros other Hin. apply HasPrefix_false.
    rewrite Forall_forall in Hall. by apply Hall.
Qed.

(** The table of [TestContainsAndTrimPrefix] (logging.go:70-114). *)
Example TestContainsAndTrimPrefix :
  Utils.ContainsAndTrimPrefix "build-123" [] = ("build-123", false)
  ∧ Utils.ContainsAndTrimPrefix "aviasales/build-123" ["aviasales/build-"]
    = ("123", true)
  ∧ Utils.ContainsAndTrimPrefix "aviasales/back-123"
      ["aviasales/build-"; "aviasales/back-"] = ("123", true)
  ∧ Utils.ContainsAndTrimPrefix "aviasales/delta-123"
      ["aviasales/build-"; "aviasales/back-"] = ("aviasales/delta-123", false)
  ∧ Utils.ContainsAndTrimPrefix "aca" ["ab"; "a"] = ("ca", true).
Proof. repeat split; vm_compute; reflexivity. Qed.

(** The table of [TestIntersects] (logging.go:36-68). *)
Example TestIntersects :
  Utils.Intersects ["a"; "b"; "c"] ["a1"; "b1"; "c1"] = false
  ∧ Utils.Intersects ["a"; "b"; "c"] ["a1"; "b"; "c1"] = true
  ∧ Utils.Intersects ["a"; "b"; "c"] ["a"; "b"; "c"] = true
  ∧ Utils.Intersects [] [] = false.
Proof. repeat split; vm_compute; reflexivity. Qed.

(** ** Cutting an image name *)

Lemma HasPrefix_char (d c : ascii) (s : string) :
  Utils.HasPrefix (String d s) (String c "") = bool_decide (d = c).
Proof.
  unfold Utils.HasPrefix, Utils.sliceTo. simpl. rewrite substring_0_0.
  apply bool_decide_ext. split; [by intros [= ->]|by intros ->].
Qed.

Lemma sliceFrom_cons (d : ascii) (s : string) (n : nat) :
  Utils.sliceFrom (String d s) (S n) = Utils.sliceFrom s n.
Proof. done. Qed.

Lemma sliceFrom_0 (s : string) : Utils.sliceFrom s 0 = s.
Proof.
  unfold Utils.sliceFrom. rewrite Nat.sub_0_r. apply substring_full.
Qed.

Lemma Index_char (s : string) (c : ascii) :
  match Utils.Index s (String c "") with
  | Some i =>
      occurs c (Utils.sliceTo s i) = false
      ∧ s = Utils.sliceTo s i +:+ String c (Utils.sliceFrom s (i + 1))
  | None => occurs c s = false
  end.
Proof.
  induction s as [|d s IH]; [done|].
  cbn [Utils.Index]. rewrite HasPrefix_char.
  case_bool_decide as Hd.
  - subst d. split; [done|]. unfold Utils.sliceTo. simpl.
    by rewrite sliceFrom_cons, sliceFrom_0.
  - destruct (Utils.Index s (String c "")) as [i|]; simpl.
    + destruct IH as [Hocc Hs]. unfold Utils.sliceTo in *. simpl.
      rewrite Hocc, sliceFrom_cons, append_cons, <- Hs.
      split; [|done]. rewrite orb_false_r. by apply Ascii.eqb_neq.
    + rewrite IH, orb_false_r. by apply Ascii.eqb_neq.
Qed.

(** X16 — [GetRepositoryAndTag] drops one leading slash and cuts at the
    first colon: the repository holds no colon; when the image holds a colon
    the image (without the slash) is repository, colon, tag, and otherwise
    the repository is the whole image and the tag is [latest]. *)
Theorem GetRepositoryAndTag_cut (image : string) :
  let trimmed := Utils.TrimPrefix image "/" in
  let '(repository, tag) := Utils.GetRepositoryAndTag image in
  occurs ":" repository = false
  ∧ (if occurs ":" trimmed
     then trimmed = repository +:+ ":" +:+ tag
     else repository = trimmed ∧ tag = "latest")
  ∧ (image = "/" +:+ trimmed
     ∨ (trimmed = image ∧ ∀ rest, image ≠ "/" +:+ rest)).
Proof.
  intros trimmed. unfold Utils.GetRepositoryAndTag, Utils.Cut.
  fold trimmed.
  pose proof (Index_char trimmed ":") as Hcut.
  assert (image = "/" +:+ trimmed
          ∨ (trimmed = image ∧ ∀ rest, image ≠ "/" +:+ rest)) as Hslash.
  { subst trimmed. unfold Utils.TrimPrefix.
    destruct (Utils.HasPrefix image "/") eqn:Hpre.
    - left. apply HasPrefix_true in Hpre as [rest ->].
      pose proof (TrimPrefix_append "/" rest) as Htrim.
      unfold Utils.TrimPrefix in Htrim.
      rewrite (proj2 (HasPrefix_true _ _)) in Htrim by (by exists rest).
      by rewrite Htrim.
    - right. split; [done|]. by apply HasPrefix_false. }
  destruct (Utils.Index trimmed ":") as [i|].
  - destruct Hcut as [Hocc Hs]. split; [done|]. split; [|done].
    assert (occurs ":" trimmed = true) as ->; [|done].
    rewrite Hs. clear. induction (Utils.sliceTo trimmed i) as [|d a IH];
      [done|]. rewrite append_cons. simpl. by rewrite IH, orb_true_r.
  - split; [done|]. split; [|done]. by rewrite Hcut.
Qed.

(** The table of [TestGetRepositoryAndTag] (logging.go:127-155). *)
Example TestGetRepositoryAndTag :
  Utils.GetRepositoryAndTag "aviasales/marketing-samokat:master-432"
  = ("aviasales/marketing-samokat", "master-432")
  ∧ Utils.GetRepositoryAndTag "/aviasales/marketing-samokat:master-432"
    = ("aviasales/marketing-samokat", "master-432")
  ∧ Utils.GetRepositoryAndTag "marketing-samokat"
    = ("marketing-samokat", "latest").
Proof. repeat split; vm_compute; reflexivity. Qed.

(** The assertions of [TestGetFirstNotNil] (logging.go:116-125). *)
Example TestGetFirstNotNil :
  Utils.GetFirstNotNil None (Some 1) = Some 1
  ∧ Utils.GetFirstNotNil (Some 1) None = Some 1
  ∧ Utils.GetFirstNotNil (Some 2) (Some 1) = Some 2
  ∧ Utils.GetFirstNotNil (Some 1) (Some 2) = Some 1
  ∧ Utils.GetFirstNotNil (@None Z) None = None.
Proof. repeat split. Qed.

(** ** Environment lookups *)

(** X17 — A variable that is set wins over the default in every lookup,
    with one exception: [LookupInt] and [LookupBool] treat a variable set
    to the empty string as unset and answer the default (or zero, or
    false), without calling the parser, whereas [LookupEnv] answers the
    empty string and [LookupDuration] hands it to the parser. *)
Theorem lookups_of_set_variable (env : gmap string string)
    (Atoi : string → option Z) (ParseBool : string → option bool)
    (ParseDuration : string → option Z) (key v : string)
    (ds : list string) (ns ts : list Z) (bs : list bool) :
  env !! key = Some v →
  Utils.LookupEnv env key ds = v
  ∧ Utils.LookupDuration env ParseDuration key ts = ParseDuration v
  ∧ Utils.LookupInt env Atoi key ns
    = (if bool_decide (v = "") then Some (default 0 (head ns)) else Atoi v)
  ∧ Utils.LookupBool env ParseBool key bs
    = (if bool_decide (v = "") then Some (default false (head bs))
       else ParseBool v).
Proof.
  intros Hset.
  unfold Utils.LookupEnv, Utils.LookupDuration, Utils.LookupInt,
    Utils.LookupBool, Utils.LookupEnv.
  rewrite Hset. repeat split.
  - case_bool_decide; [by destruct ns|done].
  - case_bool_decide; [by destruct bs|done].
Qed.

Lemma lookups_of_set_variable_witness :
  Utils.LookupEnv envEmptyPort "PORT" ["6999"] = ""
  ∧ Utils.LookupInt envEmptyPort (λ _, None) "PORT" [6999] = Some 6999.
Proof.
  assert (envEmptyPort !! "PORT" = Some "") as Hset
    by (vm_compute; reflexivity).
  destruct (lookups_of_set_variable envEmptyPort (λ _, None)
              (λ _, None) (λ _, None) "PORT" "" ["6999"] [6999] [] []
              Hset) as (Henv & _ & Hint & _).
  split; [exact Henv|exact Hint].
Defined.

(** ** Wildcard patterns *)

Lemma Split_nonempty (s : string) (sep : ascii) : Utils.Split s sep ≠ [].
Proof.
  destruct s as [|c s]; simpl; [done|].
  destruct (Ascii.eqb c sep); [done|]. by destruct (Utils.Split s sep).
Qed.

Lemma writeLiterals_acc (i : nat) (literals : list string) (acc : string) :
  Utils.writeLiterals (S i) literals acc
  = acc +:+ Utils.writeLiterals 1 literals "".
Proof.
  revert i acc. induction literals as [|l literals IH]; intros i acc; simpl.
  - by rewrite append_nil_r.
  - rewrite (IH (S i)), (IH 1%nat). by rewrite !append_assoc.
Qed.

Lemma writeLiterals_0 (l : string) (literals : list string) :
  Utils.writeLiterals 0 (l :: literals) ""
  = Utils.QuoteMeta l +:+ Utils.writeLiterals 1 literals "".
Proof. simpl. apply writeLiterals_acc. Qed.

Lemma writeLiterals_1 (l : string) (literals : list string) :
  Utils.writeLiterals 1 (l :: literals) ""
  = ".*" +:+ Utils.writeLiterals 0 (l :: literals) "".
Proof.
  rewrite writeLiterals_0. simpl. rewrite writeLiterals_acc.
  by rewrite append_assoc.
Qed.

(** The expression written for one byte of a pattern. *)
Lemma wildCardToRegexp_cons (c : ascii) (s : string) :
  Utils.wildCardToRegexp (String c s)
  = (if Ascii.eqb c "*" then ".*"
     else if Utils.special c then String "\" (String c "")
          else String c "")
    +:+ Utils.wildCardToRegexp s.
Proof.
  unfold Utils.wildCardToRegexp. cbn [Utils.Split].
  pose proof (Split_nonempty s "*") as Hne.
  destruct (Utils.Split s "*") as [|l literals]; [done|].
  destruct (Ascii.eqb c "*") eqn:Hstar.
  - rewrite writeLiterals_0. cbn [Utils.QuoteMeta].
    change ("" +:+ ?x) with x. apply writeLiterals_1.
  - rewrite !writeLiterals_0. cbn [Utils.QuoteMeta].
    destruct (Utils.special c); by rewrite ?append_cons.
Qed.

Lemma unquote_escaped (c : ascii) (r : string) :
  unquote (String "\" (String c r)) = String c (unquote r).
Proof. done. Qed.

Lemma unquote_star (r : string) :
  unquote (String "." (String "*" r)) = String "*" (unquote r).
Proof. done. Qed.

Lemma unquote_plain (c : ascii) (r : string) :
  Utils.special c = false → unquote (String c r) = String c (unquote r).
Proof.
  intros Hc. cbn [unquote].
  destruct (Ascii.eqb c "\") eqn:Hback;
    [apply Ascii.eqb_eq in Hback; by subst|].
  destruct (Ascii.eqb c ".") eqn:Hdot;
    [apply Ascii.eqb_eq in Hdot; by subst|].
  done.
Qed.

(** X18 — The pattern can be read back from the expression
    [wildCardToRegexp] writes for it, so two different patterns never give
    the same expression. *)
Theorem wildCardToRegexp_unquote (pattern other : string) :
  unquote (Utils.wildCardToRegexp pattern) = pattern
  ∧ (Utils.wildCardToRegexp pattern = Utils.wildCardToRegexp other →
     pattern = other).
Proof.
  assert (∀ p, unquote (Utils.wildCardToRegexp p) = p) as Hback.
  { clear. induction p as [|c p IH]; [done|].
    rewrite wildCardToRegexp_cons.
    destruct (Ascii.eqb c "*") eqn:Hstar.
    - apply Ascii.eqb_eq in Hstar as ->.
      change (".*" +:+ ?x) with (String "." (String "*" x)).
      by rewrite unquote_star, IH.
    - destruct (Utils.special c) eqn:Hspecial.
      + change (String "\" (String c "") +:+ ?x)
          with (String "\" (String c x)).
        by rewrite unquote_escaped, IH.
      + change (String c "" +:+ ?x) with (String c x).
        by rewrite unquote_plain, IH. }
  split; [apply Hback|].
  intros Heq. by rewrite <- (Hback pattern), Heq, Hback.
Qed.

(** X19 — [wildCardToRegexp] works piece by piece: the expression of two
    patterns joined by a star is their expressions joined by [.*], and a
    pattern without a star comes out as [QuoteMeta] leaves it. *)
Theorem wildCardToRegexp_pieces (p q : string) :
  Utils.wildCardToRegexp (p +:+ "*" +:+ q)
  = Utils.wildCardToRegexp p +:+ ".*" +:+ Utils.wildCardToRegexp q
  ∧ (occurs "*" p = false → Utils.wildCardToRegexp p = Utils.QuoteMeta p).
Proof.
  split.
  - induction p as [|c p IH].
    + change ("" +:+ "*" +:+ q) with (String "*" q).
      by rewrite wildCardToRegexp_cons.
    + rewrite append_cons, !wildCardToRegexp_cons, IH.
      by rewrite append_assoc.
  - induction p as [|c p IH]; [done|]. simpl.
    intros [Hc Hp]%orb_false_iff.
    rewrite wildCardToRegexp_cons, Hc, (IH Hp).
    by destruct (Utils.special c).
Qed.

Lemma wildCardToRegexp_pieces_witness :
  Utils.wildCardToRegexp "db-1.prod" = "db-1\.prod".
Proof.
  rewrite (proj2 (wildCardToRegexp_pieces "db-1.prod" "") eq_refl).
  reflexivity.
Defined.


(** ** The earlier revision *)

(** X20 — In the earlier revision a scrape serves the cache, and does
    nothing else, whenever the last update is more than an hour old; since
    only a refresh sets the last-update instant, the cache then stays as it
    is for good.  This is so from the start: a new exporter is sent no
    sample by any scrape and never calls the provider. *)
Theorem earlier_cache_frozen (fuel : nat) (aws : Provider) (times : list Z)
    (p : Earlier.Process) :
  Forall (λ now, Earlier.Hour
                 < Since now (Earlier.lastUpdate (Earlier.exporter p))) times →
  Earlier.scrapes fuel aws times p
  = (replicate (length times) (Earlier.cache (Earlier.exporter p)),
     Earlier.Returned p).
Proof.
  induction 1 as [|now times Hnow _ IH]; [done|].
  cbn [Earlier.scrapes]. unfold Earlier.Collect.
  rewrite bool_decide_eq_true_2 by done. by rewrite IH.
Qed.

Lemma earlier_cache_frozen_witness :
  Earlier.scrapes 5 aws1 [2 ^ 64; 2 ^ 64 + 1; 2 ^ 65]
    (Earlier.mkProcess Earlier.NewRDSExporter [])
  = ([[]; []; []], Earlier.Returned (Earlier.mkProcess Earlier.NewRDSExporter [])).
Proof.
  apply (earlier_cache_frozen 5 aws1 [2 ^ 64; 2 ^ 64 + 1; 2 ^ 65]
           (Earlier.mkProcess Earlier.NewRDSExporter [])).
  repeat constructor.
Defined.

Lemma earlier_baseValues_cases (r : string) (i : DBInstance) :
  (∃ labels, Earlier.baseValues r i = ([], Done labels)
             ∧ length labels = 8%nat
             ∧ is_Some (DBInstanceArn i))
  ∨ Earlier.baseValues r i = ([EvPanic], Panicked).
Proof.
  unfold Earlier.baseValues.
  destruct i as [[?|] [?|] ? [?|] [?|] [?|] [?|] ? ? ? ?]; simpl;
    try (by right); left; eexists; by repeat split.
Qed.

Lemma earlier_fold_tags (tagList : list Tag) (labels : list string) :
  length (foldl (λ labels tag,
                   match Key tag, Value tag with
                   | Some k, Some v =>
                       if bool_decide (k ∈ Earlier.tags) then labels ++ [v]
                       else labels
                   | _, _ => labels
                   end) labels tagList)
  = (length labels + length (filter (λ tag, configuredTag tag = true) tagList))%nat.
Proof.
  revert labels. induction tagList as [|tag tagList IH]; intros labels.
  - simpl. lia.
  - cbn [foldl]. rewrite IH, filter_cons.
    destruct (decide (configuredTag tag = true)) as [Hc|Hc];
      unfold configuredTag in Hc; destruct tag as [[k|] [v|]]; simpl in *;
      try done; try lia;
      case_bool_decide; try done; rewrite ?length_app; simpl; lia.
Qed.

Lemma earlier_gauges_done (labels : list string) (i : DBInstance) :
  (_ <- gauge Earlier.allocatedStorageDesc (AllocatedStorage i) labels ;;
   _ <- gauge Earlier.maxAllocatedStorageDesc (MaxAllocatedStorage i) labels ;;
   _ <- gauge Earlier.iopsDesc (Iops i) labels ;;
   gauge Earlier.storageThroughputDesc (StorageThroughput i) labels).2
  = Done tt →
  length labels = 13%nat
  ∨ (AllocatedStorage i = None ∧ MaxAllocatedStorage i = None
     ∧ Iops i = None ∧ StorageThroughput i = None).
Proof.
  destruct (decide (length labels = 13%nat)) as [Hlen|Hlen]; [by left|].
  intros Hdone. right.
  unfold gauge, MustNewConstMetric in Hdone. simpl in Hdone.
  rewrite !(bool_decide_eq_false_2 (length labels = 13%nat)) in Hdone by done.
  by destruct (AllocatedStorage i), (MaxAllocatedStorage i), (Iops i),
    (StorageThroughput i).
Qed.

(** X21 — In the earlier revision an instance with a populated numeric
    field gets through the collection only if its tag listing succeeds and
    is either empty or holds exactly five tags with a configured key and a
    value; with a failed tag fetch, or with any other number of such tags,
    the label count does not match the descriptor and the scrape panics. *)
Theorem earlier_instance_survives (aws : Provider) (r : string)
    (i : DBInstance) :
  (Earlier.collectInstance aws r i).2 = Done tt →
  (AllocatedStorage i = None ∧ MaxAllocatedStorage i = None
   ∧ Iops i = None ∧ StorageThroughput i = None)
  ∨ ∃ tagList,
      ListTagsForResource aws r (DBInstanceArn i) = Ok tagList
      ∧ (tagList = []
         ∨ length (filter (λ tag, configuredTag tag = true) tagList) = 5%nat).
Proof.
  unfold Earlier.collectInstance.
  destruct (earlier_baseValues_cases r i)
    as [(base & Hb & Hbase & [arn Harn])|Hb]; rewrite Hb; [|done].
  rewrite bind_done. cbn [fst snd]. unfold Earlier.tagValues.
  destruct (ListTagsForResource aws r (DBInstanceArn i)) as [tagList|err].
  - case_bool_decide as Hempty.
    + intros _. right. exists tagList. split; [done|]. left.
      by destruct tagList.
    + rewrite bind_ret.
      intros [Hlen|Hnone]%earlier_gauges_done; [|by left].
      right. exists tagList. split; [done|]. right.
      rewrite earlier_fold_tags in Hlen. lia.
  - rewrite Harn.
    match goal with
    | |- (bind ?m _).2 = _ → _ =>
        assert (∃ t, m = (t, Done base)) as [t ->] by (eexists; reflexivity)
    end.
    rewrite bind_done. cbn [snd].
    intros [Hlen|Hnone]%earlier_gauges_done; [lia|by left].
Qed.

Lemma earlier_instance_survives_witness :
  ∃ tagList,
    ListTagsForResource awsNamelessRegion "us-east-1" (DBInstanceArn db1)
    = Ok tagList
    ∧ (tagList = []
       ∨ length (filter (λ tag, configuredTag tag = true) tagList) = 5%nat).
Proof.
  destruct (earlier_instance_survives awsNamelessRegion "us-east-1" db1)
    as [(Hnone & _)|Hok]; [vm_compute; reflexivity|discriminate Hnone|exact Hok].
Defined.

Lemma wildCardToRegexp_unquote_witness :
  unquote (Utils.wildCardToRegexp "db-*.prod") = "db-*.prod".
Proof. exact (proj1 (wildCardToRegexp_unquote "db-*.prod" "")). Defined.

(** ** Where the statements of the specification stop holding *)



(** C6 (as stated) fails: an instance with allocated storage 100 but no
    availability zone makes the collector panic at main.go:143, and no
    sample is emitted for its populated field. *)
Lemma C6_unprocessed_instance_emits_nothing :
  ¬ (∀ (aws : Provider) (r : string) (i : DBInstance),
       length (named "aws_rds_allocated_storage"
                 (emitted (trace (collectInstance tags aws r i))))
       = length (option_list (AllocatedStorage i))).
Proof.
  intros Hall. specialize (Hall awsNoZone "us-east-1" dbNoZone).
  vm_compute in Hall. discriminate Hall.
Qed.

(** C7 (as stated) fails: for an instance without a resource name whose tag
    fetch fails, the log statement of main.go:164 dereferences the missing
    name and panics: the failure is not logged and the instance is not
    processed, although its other attributes are all there. *)
Lemma C7_failed_fetch_without_resource_name :
  ¬ (∀ (aws : Provider) (r : string) (i : DBInstance) (err : string),
       required i = true →
       ListTagsForResource aws r (DBInstanceArn i) = Err err →
       (collectInstance tags aws r i).2 = Done tt
       ∧ ∃ msg, EvLog msg ∈ trace (collectInstance tags aws r i)).
Proof.
  intros Hall.
  destruct (Hall awsNoTags "us-east-1" dbNoArn "AccessDenied" eq_refl eq_refl)
    as [Hdone _].
  vm_compute in Hdone. discriminate Hdone.
Qed.


